(** * notify: the provider registry and its broadcast protocol

    A shallow embedding of the Go package [notify]: the [Notifier]
    interface and its message types (notifier.go), the [Manager] with its
    registry, targeted send, synchronous and concurrent broadcast
    (manager.go), the send path of the Slack and Telegram providers
    (slack.go, telegram.go) and the mock provider of the tests.

    Conventions.
    - A Go [error] value is [option error]: [None] is [nil].
    - The registry [map[string]Notifier] is a [gmap string Notifier.t].
    - A provider call may read and change anything outside the manager
      (network, the provider's own fields); that outside is the world [W],
      threaded explicitly.  Providers hold no reference to the manager.
    - [for ... range] over a Go map visits the entries in an unspecified
      order: the order is drawn from an oracle [range_order], of which only
      "it enumerates the map" is assumed.
    - Every provider call is logged together with the state of the
      registry lock at the moment of the call. *)

From stdpp Require Import gmap strings pretty list fin_maps.

Set Warnings "-register-all".

(** ** notifier.go *)

(** The dynamic types an [error] takes in this package: the value of
    [fmt.Errorf] without [%w], the value of [fmt.Errorf] with one [%w], a
    [*NotificationError], and an error produced by a collaborator outside
    the package (HTTP client, Slack SDK, JSON codec). *)
Inductive error : Type :=
| errorString (s : string)
| wrapError (msg : string) (err : error)
| NotificationError (Provider Message : string) (Err : option error)
| externalError (s : string).

Fixpoint Error (e : error) : string :=
  match e with
  | errorString s => s
  | wrapError msg _ => msg
  | NotificationError p m Err =>
      match Err with
      | Some e' => p +:+ " notification error: " +:+ m +:+ " - " +:+ Error e'
      | None => p +:+ " notification error: " +:+ m
      end
  | externalError s => s
  end.

Definition Unwrap (e : error) : option error :=
  match e with
  | wrapError _ err => Some err
  | NotificationError _ _ Err => Err
  | _ => None
  end.

(** [fmt.Errorf("%s: %w", name, err)] *)
Definition Errorf_tagged (name : string) (err : error) : error :=
  wrapError (name +:+ ": " +:+ Error err) err.

Inductive any : Type :=
| anyString (s : string)
| anyBool (b : bool).

Record Field := { FieldTitle : string; FieldValue : string; FieldShort : bool }.

Record Attachment := {
  AttTitle : string;
  AttText : string;
  AttImageURL : string;
  AttColor : string;
  AttFields : list Field;
  AttFooter : string;
  AttFooterIcon : string
}.

Record Message := {
  Text : string;
  Title : string;
  Priority : string;
  Channel : string;
  Attachments : list Attachment;
  Metadata : gmap string any
}.

Definition PriorityHigh : string := "high".
Definition PriorityNormal : string := "normal".
Definition PriorityLow : string := "low".

(** The [Notifier] interface.  [Name] is a constant of the provider (every
    implementation of the package returns a literal or a field that is set
    once by the constructor). *)
Module Notifier.
Record t (Ctx W : Type) := Make {
  Name : string;
  Send : Ctx → string → W → option error * W;
  SendWithOptions : Ctx → Message → W → option error * W
}.
Arguments Make {Ctx W} _ _ _.
Arguments Name {Ctx W} _.
Arguments Send {Ctx W} _ _ _ _.
Arguments SendWithOptions {Ctx W} _ _ _ _.
End Notifier.

(** ** telegram.go *)

Module Telegram.
Section Telegram.
Context {Ctx W : Type}.

(** [*http.Response], as far as [sendRequest] reads it: the status code
    and what [io.ReadAll(resp.Body)] gives. *)
Record Response := { StatusCode : Z; Body : error + string }.

(** [*http.Client]: [Do] performs the request on the world. *)
Record Client (Request : Type) := {
  Do : Request → W → (error + Response) * W
}.
Arguments Do {Request} _ _ _.

Section WithCollaborators.
Variable Request : Type.
(** [json.Marshal], [http.NewRequestWithContext] and [json.Unmarshal]
    into the [{ok, description}] struct. *)
Variable Marshal : gmap string any → error + string.
Variable NewRequestWithContext : Ctx → string → string → string → error + Request.
Variable Unmarshal : string → error + (bool * string).

Record TelegramNotifier := {
  botToken : string;
  chatID : string;
  client : Client Request;
  parseMode : string
}.

Record TelegramConfig := {
  BotToken : string;
  ChatID : string;
  ParseMode : string;
  HTTPClient : option (Client Request)
}.

(** [&http.Client{Timeout: 30 * time.Second}] *)
Variable defaultClient : Client Request.

(** [NewTelegramNotifier] *)
Definition NewTelegramNotifier (config : TelegramConfig) : error + TelegramNotifier :=
  if decide (BotToken config = "")
  then inl (NotificationError "telegram" "bot token is required" None)
  else if decide (ChatID config = "")
  then inl (NotificationError "telegram" "chat ID is required" None)
  else
    inr {| botToken := BotToken config;
           chatID := ChatID config;
           client := match HTTPClient config with
                     | Some c => c
                     | None => defaultClient
                     end;
           parseMode := if decide (ParseMode config = "") then "Markdown"
                        else ParseMode config |}.

Definition Name (t : TelegramNotifier) : string := "telegram".

Definition fail (message : string) (Err : option error) : option error :=
  Some (NotificationError "telegram" message Err).

(** [sendRequest] *)
Definition sendRequest (t : TelegramNotifier) (ctx : Ctx) (method : string)
    (payload : gmap string any) (w : W) : option error * W :=
  let url := "https://api.telegram.org/bot" +:+ botToken t +:+ "/" +:+ method in
  match Marshal payload with
  | inl err => (fail "failed to marshal request" (Some err), w)
  | inr jsonData =>
      match NewRequestWithContext ctx "POST" url jsonData with
      | inl err => (fail "failed to create request" (Some err), w)
      | inr req =>
          match Do (client t) req w with
          | (inl err, w') => (fail "failed to send request" (Some err), w')
          | (inr resp, w') =>
              match Body resp with
              | inl err => (fail "failed to read response" (Some err), w')
              | inr body =>
                  if decide (StatusCode resp ≠ 200%Z)
                  then (fail ("API request failed with status "
                                +:+ pretty (StatusCode resp) +:+ ": " +:+ body) None, w')
                  else
                    match Unmarshal body with
                    | inl err => (fail "failed to parse response" (Some err), w')
                    | inr (ok, description) =>
                        if ok then (None, w')
                        else (fail ("API returned error: " +:+ description) None, w')
                    end
              end
          end
      end
  end.

Definition newline : string := String (Ascii.ascii_of_nat 10) EmptyString.

(** [SendWithOptions] *)
Definition SendWithOptions (t : TelegramNotifier) (ctx : Ctx) (msg : Message)
    (w : W) : option error * W :=
  if decide (Text msg = "") then (fail "message text is required" None, w)
  else
    let chatID := if decide (Channel msg = "") then chatID t else Channel msg in
    let messageText :=
      if decide (Title msg ≠ "")
      then "*" +:+ Title msg +:+ "*" +:+ newline +:+ newline +:+ Text msg
      else Text msg in
    let payload : gmap string any :=
      <["parse_mode" := anyString (parseMode t)]>
        (<["text" := anyString messageText]>
           (<["chat_id" := anyString chatID]> ∅)) in
    let payload :=
      if decide (Priority msg = PriorityLow)
      then <["disable_notification" := anyBool true]> payload
      else payload in
    sendRequest t ctx "sendMessage" payload w.

(** [Send] *)
Definition Send (t : TelegramNotifier) (ctx : Ctx) (message : string)
  : W → option error * W :=
  SendWithOptions t ctx
    {| Text := message; Title := ""; Priority := ""; Channel := chatID t;
       Attachments := []; Metadata := ∅ |}.

Definition as_Notifier (t : TelegramNotifier) : Notifier.t Ctx W :=
  Notifier.Make (Name t) (Send t) (SendWithOptions t).

End WithCollaborators.
End Telegram.
End Telegram.

(** ** slack.go *)

Module Slack.
Section Slack.
Context {Ctx W : Type}.

(** The parts of [github.com/slack-go/slack] the notifier builds. *)
Record AttachmentField := { AFTitle : string; AFValue : string; AFShort : bool }.

Record SlackAttachment := {
  SATitle : string;
  SAText : string;
  SAImageURL : string;
  SAColor : string;
  SAFooter : string;
  SAFooterIcon : string;
  SAFields : list AttachmentField
}.

Inductive Block : Type :=
| HeaderBlock (kind text : string)
| SectionBlock (kind text : string).

Inductive MsgOption : Type :=
| MsgOptionText (text : string) (escape : bool)
| MsgOptionUsername (username : string)
| MsgOptionIconEmoji (iconEmoji : string)
| MsgOptionAttachments (attachments : list SlackAttachment)
| MsgOptionBlocks (blocks : list Block).

(** [*slack.Client]: [PostMessageContext] acts on the world; of its three
    results the notifier keeps the error. *)
Record Client := {
  PostMessageContext : Ctx → string → list MsgOption → W → option error * W
}.

Record SlackNotifier := {
  client : option Client;
  defaultChannel : string;
  username : string;
  iconEmoji : string
}.

Record SlackConfig := {
  Token : string;
  DefaultChannel : string;
  Username : string;
  IconEmoji : string;
  WebhookURL : string
}.

(** [NewSlackNotifier]; [New] is [slack.New]. *)
Definition NewSlackNotifier (New : string → Client) (config : SlackConfig)
  : error + SlackNotifier :=
  if decide (Token config = "" ∧ WebhookURL config = "")
  then inl (NotificationError "slack" "either token or webhook URL is required" None)
  else
    inr {| client := if decide (Token config ≠ "") then Some (New (Token config))
                     else None;
           defaultChannel := DefaultChannel config;
           username := Username config;
           iconEmoji := IconEmoji config |}.

Definition Name (s : SlackNotifier) : string := "slack".

Definition fail (message : string) (Err : option error) : option error :=
  Some (NotificationError "slack" message Err).

(** [convertAttachments] *)
Definition convertAttachments (attachments : list Attachment) : list SlackAttachment :=
  map (λ att,
         {| SATitle := AttTitle att; SAText := AttText att;
            SAImageURL := AttImageURL att; SAColor := AttColor att;
            SAFooter := AttFooter att; SAFooterIcon := AttFooterIcon att;
            SAFields :=
              map (λ field, {| AFTitle := FieldTitle field;
                               AFValue := FieldValue field;
                               AFShort := FieldShort field |})
                  (AttFields att) |})
      attachments.

(** [SendWithOptions] *)
Definition SendWithOptions (s : SlackNotifier) (ctx : Ctx) (msg : Message)
    (w : W) : option error * W :=
  match client s with
  | None =>
      (fail "slack client not initialized (webhook support not yet implemented for SendWithOptions)"
            None, w)
  | Some c =>
      if decide (Text msg = "") then (fail "message text is required" None, w)
      else
        let channel := if decide (Channel msg = "") then defaultChannel s else Channel msg in
        if decide (channel = "") then (fail "channel is required" None, w)
        else
          let options := [MsgOptionText (Text msg) false] in
          let options :=
            if decide (username s ≠ "") then options ++ [MsgOptionUsername (username s)]
            else options in
          let options :=
            if decide (iconEmoji s ≠ "") then options ++ [MsgOptionIconEmoji (iconEmoji s)]
            else options in
          let options :=
            if decide (0 < length (Attachments msg))
            then options ++ [MsgOptionAttachments (convertAttachments (Attachments msg))]
            else options in
          let options :=
            if decide (Title msg ≠ "")
            then
              let blocks := [HeaderBlock "plain_text" (Title msg);
                             SectionBlock "mrkdwn" (Text msg)] in
              tail (options ++ [MsgOptionBlocks blocks])
            else options in
          match PostMessageContext c ctx channel options w with
          | (Some err, w') => (fail "failed to send message" (Some err), w')
          | (None, w') => (None, w')
          end
  end.

(** [Send] *)
Definition Send (s : SlackNotifier) (ctx : Ctx) (message : string)
  : W → option error * W :=
  SendWithOptions s ctx
    {| Text := message; Title := ""; Priority := ""; Channel := defaultChannel s;
       Attachments := []; Metadata := ∅ |}.

Definition as_Notifier (s : SlackNotifier) : Notifier.t Ctx W :=
  Notifier.Make (Name s) (Send s) (SendWithOptions s).

End Slack.
End Slack.

(** ** notifier_test.go: the mock provider *)

Module Mock.

Record MockNotifier := {
  name : string;
  sendCalled : bool;
  lastMessage : string;
  shouldFail : bool
}.

Definition NewMockNotifier (name : string) : MockNotifier :=
  {| name := name; sendCalled := false; lastMessage := ""; shouldFail := false |}.

(** The body shared by [Send] and [SendWithOptions] of the mock at
    address [l] of the heap of mocks.  An address handed out by
    [NewMockNotifier] is always allocated; on any other the heap is left
    alone. *)
Definition send (l : nat) (message : string) (h : gmap nat MockNotifier)
  : option error * gmap nat MockNotifier :=
  match h !! l with
  | Some m =>
      (if shouldFail m then Some (NotificationError (name m) "mock error" None) else None,
       <[l := {| name := name m; sendCalled := true; lastMessage := message;
                 shouldFail := shouldFail m |}]> h)
  | None => (None, h)
  end.

(** The interface value holding the pointer [l] to a mock named [nm]. *)
Definition as_Notifier (l : nat) (nm : string) : Notifier.t unit (gmap nat MockNotifier) :=
  Notifier.Make nm (λ _ message, send l message) (λ _ msg, send l (Text msg)).

End Mock.

(** ** manager.go *)

(** [NotificationResult] *)
Record NotificationResult := {
  Provider : string;
  Success : bool;
  ResError : option error
}.

(** [sync.RWMutex], reduced to who holds it. *)
Record RWMutex := { readers : nat; writer : bool }.

Definition unlocked : RWMutex := {| readers := 0; writer := false |}.

(** What is sent: the argument of [Send] or of [SendWithOptions]. *)
Inductive Payload (Ctx : Type) : Type :=
| SimpleText (ctx : Ctx) (message : string)
| WithOptions (ctx : Ctx) (msg : Message).
Arguments SimpleText {Ctx} _ _.
Arguments WithOptions {Ctx} _ _.

Module Manager.
Section Manager.
Context {Ctx W : Type}.

Abbreviation Notifier := (Notifier.t Ctx W).

(** One provider call, as logged. *)
Record Call := {
  callee : Notifier;
  payload : Payload Ctx;
  mu_at_call : RWMutex;
  outcome : option error
}.

(** The [Manager] struct together with what surrounds it: the world the
    providers act on, the log of provider calls, and the number of map
    iterations started so far (the hidden state of the runtime's
    iteration order). *)
Record Machine := {
  notifiers : gmap string Notifier;
  mu : RWMutex;
  world : W;
  calls : list Call;
  iterations : nat
}.

(** [NewManager] *)
Definition NewManager (w : W) : Machine :=
  {| notifiers := ∅; mu := unlocked; world := w; calls := []; iterations := 0 |}.

Definition set_notifiers (ns : gmap string Notifier) (s : Machine) : Machine :=
  {| notifiers := ns; mu := mu s; world := world s; calls := calls s;
     iterations := iterations s |}.

Definition set_mu (l : RWMutex) (s : Machine) : Machine :=
  {| notifiers := notifiers s; mu := l; world := world s; calls := calls s;
     iterations := iterations s |}.

(** Code of the manager: a state transformer on [Machine]. *)
Definition M (A : Type) : Type := Machine → A * Machine.

Definition ret {A} (a : A) : M A := λ s, (a, s).
Definition bind {A B} (m : M A) (k : A → M B) : M B :=
  λ s, let (a, s') := m s in k a s'.

#[local] Instance M_ret : MRet M := @ret.
#[local] Instance M_bind : MBind M := λ A B k m, bind m k.

Definition Lock : M unit :=
  λ s, (tt, set_mu {| readers := readers (mu s); writer := true |} s).
Definition Unlock : M unit :=
  λ s, (tt, set_mu {| readers := readers (mu s); writer := false |} s).
Definition RLock : M unit :=
  λ s, (tt, set_mu {| readers := S (readers (mu s)); writer := writer (mu s) |} s).
Definition RUnlock : M unit :=
  λ s, (tt, set_mu {| readers := pred (readers (mu s)); writer := writer (mu s) |} s).

Definition read_notifiers : M (gmap string Notifier) := λ s, (notifiers s, s).
Definition write_notifiers (ns : gmap string Notifier) : M unit :=
  λ s, (tt, set_notifiers ns s).

(** The provider's capability selected by a payload. *)
Definition dispatch (nt : Notifier) (p : Payload Ctx) : W → option error * W :=
  match p with
  | SimpleText ctx message => Notifier.Send nt ctx message
  | WithOptions ctx msg => Notifier.SendWithOptions nt ctx msg
  end.

(** [nt.Send(ctx, message)] / [nt.SendWithOptions(ctx, msg)]: runs the
    provider on the world and logs the call. *)
Definition invoke (nt : Notifier) (p : Payload Ctx) : M (option error) :=
  λ s, let (err, w') := dispatch nt p (world s) in
       (err, {| notifiers := notifiers s; mu := mu s; world := w';
                calls := calls s ++ [ {| callee := nt; payload := p;
                                         mu_at_call := mu s; outcome := err |} ];
                iterations := iterations s |}).

Section WithOrder.
(** The iteration order of [for ... range] over a map. *)
Variable range_order : nat → gmap string Notifier → list (string * Notifier).

(** [for name, notifier := range ns]: the entries of [ns] in the order
    of this iteration. *)
Definition range (ns : gmap string Notifier) : M (list (string * Notifier)) :=
  λ s, (range_order (iterations s) ns,
        {| notifiers := notifiers s; mu := mu s; world := world s;
           calls := calls s; iterations := S (iterations s) |}).

(** [Register] *)
Definition Register (notifier : option Notifier) : M (option error) :=
  match notifier with
  | None => ret (Some (errorString "notifier cannot be nil"))
  | Some nt =>
      Lock ;;
      let name := Notifier.Name nt in
      ns ← read_notifiers ;
      match ns !! name with
      | Some _ =>
          Unlock ;;
          ret (Some (errorString ("notifier with name " +:+ name +:+ " already registered")))
      | None =>
          write_notifiers (<[name := nt]> ns) ;;
          Unlock ;;
          ret None
      end
  end.

(** [Unregister] *)
Definition Unregister (name : string) : M unit :=
  Lock ;;
  ns ← read_notifiers ;
  write_notifiers (delete name ns) ;;
  Unlock.

(** [Get]: the notifier and the presence flag, as one option. *)
Definition Get (name : string) : M (option Notifier) :=
  RLock ;;
  ns ← read_notifiers ;
  RUnlock ;;
  ret (ns !! name).

(** [List] *)
Definition List : M (list string) :=
  RLock ;;
  ns ← read_notifiers ;
  l ← range ns ;
  RUnlock ;;
  ret (fold_left (λ names e, names ++ [e.1]) l []).

(** [Send] and [SendWithOptions] of the manager, which differ in the
    capability they delegate to. *)
Definition send_to (provider : string) (p : Payload Ctx) : M (option error) :=
  found ← Get provider ;
  match found with
  | None => ret (Some (errorString ("notifier " +:+ provider +:+ " not found")))
  | Some notifier => invoke notifier p
  end.

Definition Send (ctx : Ctx) (provider message : string) : M (option error) :=
  send_to provider (SimpleText ctx message).

Definition SendWithOptions (ctx : Ctx) (provider : string) (msg : Message)
  : M (option error) :=
  send_to provider (WithOptions ctx msg).

(** The loop of [Broadcast] and [BroadcastWithOptions]. *)
Fixpoint broadcast_loop (p : Payload Ctx) (l : list (string * Notifier))
    (errors : list error) : M (list error) :=
  match l with
  | [] => ret errors
  | (name, notifier) :: rest =>
      err ← invoke notifier p ;
      broadcast_loop p rest
        (match err with
         | Some e => errors ++ [Errorf_tagged name e]
         | None => errors
         end)
  end.

Definition broadcast (p : Payload Ctx) : M (list error) :=
  RLock ;;
  ns ← read_notifiers ;
  l ← range ns ;
  errors ← broadcast_loop p l [] ;
  RUnlock ;;
  ret errors.

Definition Broadcast (ctx : Ctx) (message : string) : M (list error) :=
  broadcast (SimpleText ctx message).

Definition BroadcastWithOptions (ctx : Ctx) (msg : Message) : M (list error) :=
  broadcast (WithOptions ctx msg).

(** *** Concurrent broadcast

    [BroadcastAsync] and [BroadcastAsyncWithOptions] start one
    goroutine per entry of a copy of the registry, and one more that
    waits for them and closes the channel.  The goroutines and the
    caller that receives from the channel are interleaved by a
    scheduler: the state below is what they share, an [Action] is one
    atomic move of one of them, and a schedule is a list of actions. *)

(** Where a dispatching goroutine stands in its body
    [defer wg.Done(); err := nt.Send(..); resultChan <- ..]. *)
Inductive Phase : Type :=
| Started
| Sent (err : option error)
| Delivered
| Finished.

Record Goroutine := { n : string; nt : Notifier; phase : Phase }.

(** [machine]: the manager and the world; [spawning]: the entries the loop
    [for name, notifier := range notifiers] has still to visit; [units]:
    the goroutines started so far; [wg]: the counter of the wait group;
    [resultChan], [capacity], [closed]: the buffer of the channel, its
    size and whether [close] was called; [returned]: [BroadcastAsync] has
    started the closing goroutine and handed the channel to its caller;
    [received]: what the caller has taken from the channel. *)
Record Async := {
  machine : Machine;
  spawning : list (string * Notifier);
  units : list Goroutine;
  wg : nat;
  resultChan : list NotificationResult;
  capacity : nat;
  closed : bool;
  returned : bool;
  received : list NotificationResult
}.

(** The copy of the registry taken under the read lock. *)
Definition snapshot : M (gmap string Notifier) :=
  RLock ;;
  ns ← read_notifiers ;
  l ← range ns ;
  let notifiers := fold_left (λ acc e, <[e.1 := e.2]> acc) l ∅ in
  RUnlock ;;
  mret notifiers.

(** The state in which the second loop of [BroadcastAsync] begins. *)
Definition async_start : M Async :=
  notifiers ← snapshot ;
  l ← range notifiers ;
  ((λ s, ({| machine := s; spawning := l; units := []; wg := 0;
             resultChan := []; capacity := size notifiers;
             closed := false; returned := false; received := [] |}, s)) : M Async).

(** What other goroutines may do to the registry meanwhile. *)
Inductive EnvOp : Type :=
| EnvRegister (notifier : option Notifier)
| EnvUnregister (name : string).

Inductive Action : Type :=
| ASpawn               (* [wg.Add(1); go func(n, nt) {..}(name, notifier)] *)
| AReturn              (* [go func() { wg.Wait(); close(..) }(); return resultChan] *)
| ASend (i : nat)      (* goroutine [i]: [err := nt.Send(ctx, message)] *)
| ADeliver (i : nat)   (* goroutine [i]: [resultChan <- NotificationResult{..}] *)
| ADone (i : nat)      (* goroutine [i]: the deferred [wg.Done()] *)
| AClose               (* the closer: [wg.Wait()] passed, [close(resultChan)] *)
| ARecv                (* the caller: one iteration of [for r := range resultChan] *)
| AEnv (op : EnvOp).

Definition set_machine (s : Machine) (a : Async) : Async :=
  {| machine := s; spawning := spawning a; units := units a; wg := wg a;
     resultChan := resultChan a; capacity := capacity a; closed := closed a;
     returned := returned a; received := received a |}.

Definition set_phase (i : nat) (g : Goroutine) (ph : Phase) (a : Async) : Async :=
  {| machine := machine a; spawning := spawning a;
     units := <[i := {| n := n g; nt := nt g; phase := ph |}]> (units a);
     wg := wg a; resultChan := resultChan a; capacity := capacity a;
     closed := closed a; returned := returned a; received := received a |}.

Definition set_chan (c : list NotificationResult) (a : Async) : Async :=
  {| machine := machine a; spawning := spawning a; units := units a; wg := wg a;
     resultChan := c; capacity := capacity a; closed := closed a;
     returned := returned a; received := received a |}.

Definition set_wg (k : nat) (a : Async) : Async :=
  {| machine := machine a; spawning := spawning a; units := units a; wg := k;
     resultChan := resultChan a; capacity := capacity a; closed := closed a;
     returned := returned a; received := received a |}.

Definition result_of (name : string) (err : option error) : NotificationResult :=
  {| Provider := name;
     Success := match err with None => true | Some _ => false end;
     ResError := err |}.

(** One move; [None] when the move is not enabled (the goroutine is
    elsewhere in its body, would block, or would panic). *)
Definition exec (p : Payload Ctx) (act : Action) (a : Async) : option Async :=
  match act with
  | ASpawn =>
      match spawning a, returned a with
      | (name, notifier) :: rest, false =>
          Some {| machine := machine a; spawning := rest;
                  units := units a ++ [ {| n := name; nt := notifier; phase := Started |} ];
                  wg := S (wg a); resultChan := resultChan a;
                  capacity := capacity a; closed := closed a;
                  returned := false; received := received a |}
      | _, _ => None
      end
  | AReturn =>
      match spawning a, returned a with
      | [], false =>
          Some {| machine := machine a; spawning := []; units := units a;
                  wg := wg a; resultChan := resultChan a;
                  capacity := capacity a; closed := closed a;
                  returned := true; received := received a |}
      | _, _ => None
      end
  | ASend i =>
      match units a !! i with
      | Some g =>
          match phase g with
          | Started =>
              let (err, s') := invoke (nt g) p (machine a) in
              Some (set_phase i g (Sent err) (set_machine s' a))
          | _ => None
          end
      | None => None
      end
  | ADeliver i =>
      match units a !! i with
      | Some g =>
          match phase g with
          | Sent err =>
              if closed a then None
              else if decide (length (resultChan a) < capacity a)
              then Some (set_phase i g Delivered
                           (set_chan (resultChan a ++ [result_of (n g) err]) a))
              else None
          | _ => None
          end
      | None => None
      end
  | ADone i =>
      match units a !! i with
      | Some g =>
          match phase g, wg a with
          | Delivered, S k => Some (set_phase i g Finished (set_wg k a))
          | _, _ => None
          end
      | None => None
      end
  | AClose =>
      match returned a, wg a, closed a with
      | true, 0, false =>
          Some {| machine := machine a; spawning := spawning a; units := units a;
                  wg := 0; resultChan := resultChan a; capacity := capacity a;
                  closed := true; returned := true; received := received a |}
      | _, _, _ => None
      end
  | ARecv =>
      match returned a, resultChan a with
      | true, r :: rest =>
          Some {| machine := machine a; spawning := spawning a; units := units a;
                  wg := wg a; resultChan := rest; capacity := capacity a;
                  closed := closed a; returned := true;
                  received := received a ++ [r] |}
      | _, _ => None
      end
  | AEnv (EnvRegister notifier) =>
      Some (set_machine (Register notifier (machine a)).2 a)
  | AEnv (EnvUnregister name) =>
      Some (set_machine (Unregister name (machine a)).2 a)
  end.

Fixpoint run (p : Payload Ctx) (sched : list Action) (a : Async) : option Async :=
  match sched with
  | [] => Some a
  | act :: rest =>
      match exec p act a with
      | Some a' => run p rest a'
      | None => None
      end
  end.

(** The state a broadcast that began in [s] is in after the moves of
    [sched]. *)
Definition broadcast_async (p : Payload Ctx) (sched : list Action) (s : Machine)
  : option Async :=
  run p sched (async_start s).1.

Definition BroadcastAsync (ctx : Ctx) (message : string) :=
  broadcast_async (SimpleText ctx message).

Definition BroadcastAsyncWithOptions (ctx : Ctx) (msg : Message) :=
  broadcast_async (WithOptions ctx msg).

(** The caller's [for r := range resultChan] ends here. *)
Definition drained (a : Async) : Prop :=
  closed a = true ∧ resultChan a = [].

Definition is_env (act : Action) : bool :=
  match act with AEnv _ => true | _ => false end.

End WithOrder.
End Manager.
End Manager.

(** ** The manager's errors, by the names the specification gives them *)

Definition InvalidProviderError : error :=
  errorString "notifier cannot be nil".

Definition DuplicateProviderError (name : string) : error :=
  errorString ("notifier with name " +:+ name +:+ " already registered").

Definition ProviderNotFoundError (provider : string) : error :=
  errorString ("notifier " +:+ provider +:+ " not found").

Import Manager.

(** ** Notions used to state the properties *)

Section Notions.
Context {Ctx W : Type}.
Implicit Types (l : list (string * Notifier.t Ctx W)) (w : W) (p : Payload Ctx).

(** What the providers of [l], called one after the other from world [w],
    return, and the world they leave. *)
Fixpoint outcomes_of p l w : list (option error) * W :=
  match l with
  | [] => ([], w)
  | (_, notifier) :: rest =>
      let (err, w') := dispatch notifier p w in
      let (outs, w'') := outcomes_of p rest w' in
      (err :: outs, w'')
  end.

(** The log entries of calls to the providers of [l], made while the lock
    was [lk], with outcomes [outs]. *)
Definition logged p (lk : RWMutex) l (outs : list (option error)) : list (@Call Ctx W) :=
  zip_with (λ e o, {| callee := e.2; payload := p; mu_at_call := lk; outcome := o |})
           l outs.

(** The failures among [outs], each tagged with the registry key of its
    provider. *)
Definition failures l (outs : list (option error)) : list error :=
  omap (λ eo, Errorf_tagged eo.1.1 <$> eo.2) (zip l outs).


(** Every entry of the registry is filed under the name of its provider. *)
Definition keyed_by_name (s : @Machine Ctx W) : Prop :=
  ∀ key nt, notifiers s !! key = Some nt → Notifier.Name nt = key.

(** The registry lock while one reader holds it. *)
Definition read_locked : RWMutex := {| readers := 1; writer := false |}.

(** [cs] are the provider calls made between [s] and [s'], and all of them
    were made while the lock was [lk]. *)
Definition calls_made_under (lk : RWMutex) (s s' : @Machine Ctx W)
    (cs : list (@Call Ctx W)) : Prop :=
  calls s' = calls s ++ cs ∧ Forall (λ c, mu_at_call c = lk) cs.



(** The identity a goroutine has reported under, once its result is in the
    channel. *)
Definition reported (g : @Goroutine Ctx W) : option string :=
  match phase g with
  | Delivered | Finished => Some (n g)
  | _ => None
  end.

(** The contribution of a goroutine to the wait group. *)
Definition alive (g : @Goroutine Ctx W) : nat :=
  match phase g with
  | Finished => 0
  | _ => 1
  end.

(** What holds in every state of a concurrent broadcast over the entries
    [l0] of the copy. *)
Record async_inv (l0 : list (string * Notifier.t Ctx W)) (a : @Async Ctx W) : Prop := {
  inv_units : ((λ g, (n g, nt g)) <$> units a) ++ spawning a = l0;
  inv_wg : wg a = sum_list_with alive (units a);
  inv_results : Provider <$> (received a ++ resultChan a) ≡ₚ omap reported (units a);
  inv_capacity : capacity a = length l0;
  inv_returned : returned a = true → spawning a = [];
  inv_closed : closed a = true → returned a = true ∧ wg a = 0
}.

(** The moves of the broadcast itself in a schedule. *)
Definition own_moves (sched : list (@Action Ctx W)) : list (@Action Ctx W) :=
  filter (λ act, is_env act = false) sched.


End Notions.

(** ** The scenario of the tests: mocks "a" (succeeds) and "b" (fails) *)

Module Scenario.

Abbreviation World := (gmap nat Mock.MockNotifier).

(** An iteration order: the one [map_to_list] happens to have. *)
Definition order (k : nat) (ns : gmap string (Notifier.t unit World))
  : list (string * Notifier.t unit World) :=
  map_to_list ns.

Definition failing (name : string) : Mock.MockNotifier :=
  {| Mock.name := name; Mock.sendCalled := false; Mock.lastMessage := "";
     Mock.shouldFail := true |}.

Definition heap : World :=
  <[1 := failing "b"]> (<[0 := Mock.NewMockNotifier "a"]> ∅).

Definition a : Notifier.t unit World := Mock.as_Notifier 0 "a".
Definition b : Notifier.t unit World := Mock.as_Notifier 1 "b".

(** A second mock that calls itself "a". *)
Definition a' : Notifier.t unit World := Mock.as_Notifier 2 "a".

Definition empty : @Machine unit World := NewManager heap.
Definition only_a : @Machine unit World := (Register (Some a) empty).2.
Definition both : @Machine unit World := (Register (Some b) only_a).2.

Definition hello : Message :=
  {| Text := "hi"; Title := ""; Priority := PriorityNormal; Channel := "";
     Attachments := []; Metadata := ∅ |}.

Definition blank : Message :=
  {| Text := ""; Title := "Alert"; Priority := PriorityHigh; Channel := "#ops";
     Attachments := []; Metadata := ∅ |}.

(** One interleaving of a concurrent broadcast to two providers: the
    second goroutine overtakes the first. *)
Definition interleaving : list (@Action unit World) :=
  [ASpawn; ASpawn; ASend 1; AReturn; ADeliver 1; ASend 0; ARecv; ADone 1;
   ADeliver 0; ADone 0; AClose; ARecv].

(** A Slack notifier with a client that accepts every message, and a
    Telegram notifier whose transport always answers [{ok: true}]. *)
Definition slack : @Slack.SlackNotifier unit unit :=
  {| Slack.client := Some {| Slack.PostMessageContext := λ _ _ _ w, (None, w) |};
     Slack.defaultChannel := "#general"; Slack.username := ""; Slack.iconEmoji := "" |}.

Definition telegram : @Telegram.TelegramNotifier unit string :=
  {| Telegram.botToken := "token"; Telegram.chatID := "42";
     Telegram.client :=
       {| Telegram.Do := λ (_ : string) (w : unit),
            (inr {| Telegram.StatusCode := 200; Telegram.Body := inr "" |}, w) |};
     Telegram.parseMode := "Markdown" |}.

(** A concurrent broadcast that has made no move. *)
Definition empty_async : @Async unit World := (async_start order empty).1.

Definition Marshal (payload : gmap string any) : error + string := inr "".
Definition NewRequestWithContext (ctx : unit) (method url body : string)
  : error + string := inr url.
Definition Unmarshal (body : string) : error + (bool * string) := inr (true, "").

End Scenario.

(** * The rest of the package *)

(** ** slack.go: rich messages, files, and the conversion loop *)

Module SlackRich.
Section SlackRich.
Context {Ctx W : Type}.

(** [slack.FileUploadParameters], the fields [SendFile] sets. *)
Record FileUploadParameters := {
  File : string;
  Channels : list string;
  FileTitle : string;
  InitialComment : string
}.

(** [UploadFileContext], a method of the SDK client beside
    [PostMessageContext]; of its two results the notifier keeps the error. *)
Variable UploadFileContext :
  @Slack.Client Ctx W → Ctx → FileUploadParameters → W → option error * W.

(** [GetClient] *)
Definition GetClient (s : @Slack.SlackNotifier Ctx W) : option (@Slack.Client Ctx W) :=
  Slack.client s.

(** [SendRichMessage] *)
Definition SendRichMessage (s : @Slack.SlackNotifier Ctx W) (ctx : Ctx)
    (channel : string) (blocks : list Slack.Block) (w : W) : option error * W :=
  match Slack.client s with
  | None => (Slack.fail "slack client not initialized" None, w)
  | Some c =>
      let channel := if decide (channel = "") then Slack.defaultChannel s else channel in
      match Slack.PostMessageContext c ctx channel [Slack.MsgOptionBlocks blocks] w with
      | (Some err, w') => (Slack.fail "failed to send rich message" (Some err), w')
      | (None, w') => (None, w')
      end
  end.

(** [SendFile]; [fmt.Sprintf("failed to upload file: %v", err)] prints
    [err.Error()]. *)
Definition SendFile (s : @Slack.SlackNotifier Ctx W) (ctx : Ctx)
    (channel filePath title comment : string) (w : W) : option error * W :=
  match Slack.client s with
  | None => (Slack.fail "slack client not initialized" None, w)
  | Some c =>
      let channel := if decide (channel = "") then Slack.defaultChannel s else channel in
      let params := {| File := filePath; Channels := [channel];
                       FileTitle := title; InitialComment := comment |} in
      match UploadFileContext c ctx params w with
      | (Some err, w') =>
          (Slack.fail ("failed to upload file: " +:+ Error err) (Some err), w')
      | (None, w') => (None, w')
      end
  end.

End SlackRich.

(** [convertAttachments] as the source writes it: both slices are made at
    their final length, holding zero values, and filled slot by slot. *)
Definition zeroField : Slack.AttachmentField :=
  {| Slack.AFTitle := ""; Slack.AFValue := ""; Slack.AFShort := false |}.

Definition zeroAttachment : Slack.SlackAttachment :=
  {| Slack.SATitle := ""; Slack.SAText := ""; Slack.SAImageURL := "";
     Slack.SAColor := ""; Slack.SAFooter := ""; Slack.SAFooterIcon := "";
     Slack.SAFields := [] |}.

(** [for j, field := range att.Fields { slackAtt.Fields[j] = ... }] from
    index [j] on. *)
Fixpoint fillFields (j : nat) (fields : list Field) (out : list Slack.AttachmentField)
  : list Slack.AttachmentField :=
  match fields with
  | [] => out
  | field :: rest =>
      fillFields (S j) rest
        (<[j := {| Slack.AFTitle := FieldTitle field;
                   Slack.AFValue := FieldValue field;
                   Slack.AFShort := FieldShort field |}]> out)
  end.

Definition convertFields (fields : list Field) : list Slack.AttachmentField :=
  if decide (0 < length fields)
  then fillFields 0 fields (replicate (length fields) zeroField)
  else [].

(** [for i, att := range attachments { ...; slackAttachments[i] = slackAtt }]
    from index [i] on. *)
Fixpoint fillAttachments (i : nat) (attachments : list Attachment)
    (out : list Slack.SlackAttachment) : list Slack.SlackAttachment :=
  match attachments with
  | [] => out
  | att :: rest =>
      fillAttachments (S i) rest
        (<[i := {| Slack.SATitle := AttTitle att; Slack.SAText := AttText att;
                   Slack.SAImageURL := AttImageURL att; Slack.SAColor := AttColor att;
                   Slack.SAFooter := AttFooter att;
                   Slack.SAFooterIcon := AttFooterIcon att;
                   Slack.SAFields := convertFields (AttFields att) |}]> out)
  end.

Definition convertAttachments (attachments : list Attachment)
  : list Slack.SlackAttachment :=
  fillAttachments 0 attachments (replicate (length attachments) zeroAttachment).

(** The channel [SendWithOptions] posts to, and the options it has built
    when it calls [PostMessageContext]. *)
Definition channel_of {Ctx W : Type} (s : @Slack.SlackNotifier Ctx W) (msg : Message)
  : string :=
  if decide (Channel msg = "") then Slack.defaultChannel s else Channel msg.

Definition options_of {Ctx W : Type} (s : @Slack.SlackNotifier Ctx W) (msg : Message)
  : list Slack.MsgOption :=
  let options := [Slack.MsgOptionText (Text msg) false] in
  let options :=
    if decide (Slack.username s ≠ "")
    then options ++ [Slack.MsgOptionUsername (Slack.username s)]
    else options in
  let options :=
    if decide (Slack.iconEmoji s ≠ "")
    then options ++ [Slack.MsgOptionIconEmoji (Slack.iconEmoji s)]
    else options in
  let options :=
    if decide (0 < length (Attachments msg))
    then options ++ [Slack.MsgOptionAttachments (Slack.convertAttachments (Attachments msg))]
    else options in
  if decide (Title msg ≠ "")
  then
    let blocks := [Slack.HeaderBlock "plain_text" (Title msg);
                   Slack.SectionBlock "mrkdwn" (Text msg)] in
    tail (options ++ [Slack.MsgOptionBlocks blocks])
  else options.

Definition is_text_option (o : Slack.MsgOption) : bool :=
  match o with Slack.MsgOptionText _ _ => true | _ => false end.

Definition is_blocks_option (o : Slack.MsgOption) : bool :=
  match o with Slack.MsgOptionBlocks _ => true | _ => false end.

End SlackRich.

(** ** telegram.go: photos, and the payload of a message *)

Module TelegramPhoto.
Section TelegramPhoto.
Context {Ctx W : Type}.
Variable Request : Type.
Variable Marshal : gmap string any → error + string.
Variable NewRequestWithContext : Ctx → string → string → string → error + Request.
Variable Unmarshal : string → error + (bool * string).

(** [SendPhoto] *)
Definition SendPhoto (t : @Telegram.TelegramNotifier W Request) (ctx : Ctx)
    (chatID photoURL caption : string) : W → option error * W :=
  let chatID := if decide (chatID = "") then Telegram.chatID Request t else chatID in
  let payload : gmap string any :=
    <["caption" := anyString caption]>
      (<["photo" := anyString photoURL]>
         (<["chat_id" := anyString chatID]> ∅)) in
  Telegram.sendRequest Request Marshal NewRequestWithContext Unmarshal t ctx
    "sendPhoto" payload.

(** The JSON object [SendWithOptions] has built when it calls
    [sendRequest]. *)
Definition payload_of (t : @Telegram.TelegramNotifier W Request) (msg : Message)
  : gmap string any :=
  let chatID := if decide (Channel msg = "") then Telegram.chatID Request t else Channel msg in
  let messageText :=
    if decide (Title msg ≠ "")
    then "*" +:+ Title msg +:+ "*" +:+ Telegram.newline +:+ Telegram.newline +:+ Text msg
    else Text msg in
  let payload : gmap string any :=
    <["parse_mode" := anyString (Telegram.parseMode Request t)]>
      (<["text" := anyString messageText]>
         (<["chat_id" := anyString chatID]> ∅)) in
  if decide (Priority msg = PriorityLow)
  then <["disable_notification" := anyBool true]> payload
  else payload.

(** What has to go well for a request to succeed: the payload marshals,
    the request is built, the transport answers, the body is read, the
    status is 200 and the body parses to [ok: true]. *)
Definition answered_ok (t : @Telegram.TelegramNotifier W Request) (ctx : Ctx)
    (method : string) (payload : gmap string any) (w : W) : Prop :=
  ∃ jsonData req resp body description,
    Marshal payload = inr jsonData
    ∧ NewRequestWithContext ctx "POST"
        ("https://api.telegram.org/bot" +:+ Telegram.botToken Request t +:+ "/" +:+ method)
        jsonData = inr req
    ∧ (Telegram.Do Request (Telegram.client Request t) req w).1 = inr resp
    ∧ Telegram.Body resp = inr body
    ∧ Telegram.StatusCode resp = 200%Z
    ∧ Unmarshal body = inr (true, description).

End TelegramPhoto.
End TelegramPhoto.

(** ** examples/custom: the console notifier *)

Module Custom.

(** [CustomNotifier].  The world is standard output: the texts written to
    it so far, one per call of [fmt.Printf], each exactly as formatted,
    the line feed that ends the format included.  The arguments are
    printed as they are, so a text spans as many lines as it has line
    feeds. *)
Record CustomNotifier := { name : string }.

Definition NewCustomNotifier (name : string) : CustomNotifier := {| name := name |}.

Definition Name (c : CustomNotifier) : string := name c.

(** The line feed of the format strings. *)
Definition LF : string := String (Ascii.ascii_of_nat 10) EmptyString.

(** [Send] *)
Definition Send {Ctx : Type} (c : CustomNotifier) (ctx : Ctx) (message : string)
    (out : list string) : option error * list string :=
  (None, out ++ ["[" +:+ name c +:+ "] Sending message: " +:+ message +:+ LF]).

(** [SendWithOptions] *)
Definition SendWithOptions {Ctx : Type} (c : CustomNotifier) (ctx : Ctx) (msg : Message)
    (out : list string) : option error * list string :=
  let out := out ++ ["[" +:+ name c +:+ "] Sending message with options:" +:+ LF] in
  let out := if decide (Title msg ≠ "") then out ++ ["  Title: " +:+ Title msg +:+ LF]
             else out in
  let out := out ++ ["  Text: " +:+ Text msg +:+ LF] in
  let out := if decide (Priority msg ≠ "")
             then out ++ ["  Priority: " +:+ Priority msg +:+ LF]
             else out in
  (None, out).

Definition as_Notifier {Ctx : Type} (c : CustomNotifier) : Notifier.t Ctx (list string) :=
  Notifier.Make (Name c) (Send c) (SendWithOptions c).

End Custom.

(** ** Pointer receivers and the nil interface

    The methods of [SlackNotifier] and [TelegramNotifier] have pointer
    receivers, and both constructors return a nil pointer beside their
    error.  A pointer of either type converts to a [Notifier] whatever it
    points to: the interface value that holds a nil pointer is not the nil
    interface, and [notifier == nil] is false of it.  [Name] returns a
    literal without reading its receiver.  The sends read fields of the
    receiver, and on a nil receiver they panic at the first such read:
    [Send] of either type while it builds its message, [SendWithOptions]
    of Slack at its client test, [SendWithOptions] of Telegram after its
    test of the text, which reads the message only. *)

Module Pointer.
Section Pointer.
Context {Ctx W : Type}.

(** What a call does that dereferences a nil receiver.  It panics, and a
    provider call of this model has no value for that; this parameter
    stands for it. *)
Variable nil_dereference : W → option error * W.

(** The pointer a constructor returns: nil when it returns an error. *)
Definition pointer_of {A : Type} (r : error + A) : option A :=
  match r with
  | inl _ => None
  | inr a => Some a
  end.

(** The interface value holding a [*SlackNotifier]. *)
Definition slack (s : option (@Slack.SlackNotifier Ctx W)) : Notifier.t Ctx W :=
  match s with
  | Some s => Slack.as_Notifier s
  | None =>
      Notifier.Make "slack" (λ _ _, nil_dereference) (λ _ _, nil_dereference)
  end.

(** [p, _ := NewSlackNotifier(config); manager.Register(p)], as the Quick
    Start registers its providers: the constructor's error is dropped. *)
Definition register_slack (New : string → @Slack.Client Ctx W)
    (config : Slack.SlackConfig) : @M Ctx W (option error) :=
  Register (Some (slack (pointer_of (Slack.NewSlackNotifier New config)))).

Section WithCollaborators.
Variable Request : Type.
Variable Marshal : gmap string any → error + string.
Variable NewRequestWithContext : Ctx → string → string → string → error + Request.
Variable Unmarshal : string → error + (bool * string).

(** The interface value holding a [*TelegramNotifier]. *)
Definition telegram (t : option (@Telegram.TelegramNotifier W Request))
  : Notifier.t Ctx W :=
  match t with
  | Some t => Telegram.as_Notifier Request Marshal NewRequestWithContext Unmarshal t
  | None =>
      Notifier.Make "telegram"
        (λ _ _, nil_dereference)
        (λ _ msg w,
           if decide (Text msg = "")
           then (Telegram.fail "message text is required" None, w)
           else nil_dereference w)
  end.

(** [p, _ := NewTelegramNotifier(config); manager.Register(p)] *)
Definition register_telegram (defaultClient : @Telegram.Client W Request)
    (config : @Telegram.TelegramConfig W Request) : @M Ctx W (option error) :=
  Register (Some (telegram (pointer_of
                     (Telegram.NewTelegramNotifier Request defaultClient config)))).

End WithCollaborators.
End Pointer.
End Pointer.

(** ** Standard output, counted in lines *)

(** The line feeds in a text. *)
Fixpoint line_feeds (text : string) : nat :=
  match text with
  | EmptyString => 0
  | String c rest =>
      (if decide (c = Ascii.ascii_of_nat 10) then 1 else 0) + line_feeds rest
  end.

(** What [Send] of a console notifier called [name] writes for [message]. *)
Definition announced (name message : string) : string :=
  "[" +:+ name +:+ "] Sending message: " +:+ message +:+ Custom.LF.

(** ** More notions used to state the properties *)

Section MoreNotions.
Context {Ctx W : Type}.
Implicit Types (s : @Machine Ctx W) (p : Payload Ctx) (a : @Async Ctx W).

(** A registration or removal, and a sequence of them, applied to a
    machine. *)
Definition apply_op (op : @EnvOp Ctx W) s : @Machine Ctx W :=
  match op with
  | EnvRegister notifier => (Register notifier s).2
  | EnvUnregister name => (Unregister name s).2
  end.

Definition apply_ops (ops : list (@EnvOp Ctx W)) s : @Machine Ctx W :=
  fold_left (λ s op, apply_op op s) ops s.


(** The provider a goroutine has called, once it has. *)
Definition called (g : @Goroutine Ctx W) : option (Notifier.t Ctx W) :=
  match phase g with
  | Started => None
  | _ => Some (nt g)
  end.

(** The result [r] reports what a call of the log [cs] to the provider
    registered under the identity of [r] returned. *)
Definition backed (l0 : list (string * Notifier.t Ctx W)) (cs : list (@Call Ctx W))
    (r : NotificationResult) : Prop :=
  Success r = match ResError r with None => true | Some _ => false end
  ∧ ∃ c, c ∈ cs ∧ (Provider r, callee c) ∈ l0 ∧ outcome c = ResError r.

(** The log of a concurrent broadcast of [p] over the entries [l0] that
    began with the log [calls0]: its calls are those of the goroutines that
    have called, all with payload [p]; every result delivered is backed by
    one of them, and so is the error a goroutine is about to deliver. *)
Definition async_log p (l0 : list (string * Notifier.t Ctx W))
    (calls0 : list (@Call Ctx W)) a : Prop :=
  ∃ cs,
    calls (machine a) = calls0 ++ cs
    ∧ callee <$> cs ≡ₚ omap called (units a)
    ∧ Forall (λ c, payload c = p) cs
    ∧ Forall (backed l0 cs) (received a ++ resultChan a)
    ∧ Forall (λ g, ∀ e, phase g = Sent e →
                ∃ c, c ∈ cs ∧ callee c = nt g ∧ outcome c = e) (units a).

(** A schedule in which the caller never receives. *)
Definition never_receives (sched : list (@Action Ctx W)) : Prop :=
  Forall (λ act, act ≠ ARecv) sched.

(** Moves a goroutine in the given phase still has to make. *)
Definition moves_to_finish (ph : Phase) : nat :=
  match ph with
  | Started => 3
  | Sent _ => 2
  | Delivered => 1
  | Finished => 0
  end.

(** Moves left before the channel is closed, receives not counted. *)
Definition remaining_to_close a : nat :=
  4 * length (spawning a)
  + sum_list_with (λ g, moves_to_finish (phase g)) (units a)
  + (if returned a then 0 else 1)
  + (if closed a then 0 else 1).

End MoreNotions.

(** ** A recording Slack client, and configurations *)

Module Providers.

(** The world of a Slack client that accepts every message and writes
    down the channel and the options it was given. *)
Abbreviation Posts := (list (string * list Slack.MsgOption)).

Definition recorder : @Slack.Client unit Posts :=
  {| Slack.PostMessageContext := λ _ channel options w, (None, w ++ [(channel, options)]) |}.

Definition New (token : string) : @Slack.Client unit Posts := recorder.

Definition upload (c : @Slack.Client unit Posts) (ctx : unit)
    (params : @SlackRich.FileUploadParameters) (w : Posts) : option error * Posts :=
  (Some (externalError "not_in_channel"), w ++ [(default "" (head (SlackRich.Channels params)), [])]).

Definition webhook_only : Slack.SlackConfig :=
  {| Slack.Token := ""; Slack.DefaultChannel := "#general"; Slack.Username := "";
     Slack.IconEmoji := ""; Slack.WebhookURL := "https://hooks.slack.com/services/T/B/X" |}.

Definition with_token : Slack.SlackConfig :=
  {| Slack.Token := "xoxb-token"; Slack.DefaultChannel := "#general";
     Slack.Username := "bot"; Slack.IconEmoji := ""; Slack.WebhookURL := "" |}.

Definition bot : @Slack.SlackNotifier unit Posts :=
  {| Slack.client := Some recorder; Slack.defaultChannel := "#general";
     Slack.username := "bot"; Slack.iconEmoji := "" |}.

Definition no_channel : @Slack.SlackNotifier unit Posts :=
  {| Slack.client := Some recorder; Slack.defaultChannel := "";
     Slack.username := ""; Slack.iconEmoji := "" |}.

Definition alert : Message :=
  {| Text := "CPU usage is high"; Title := "Alert"; Priority := PriorityLow;
     Channel := ""; Attachments := []; Metadata := ∅ |}.

Definition field : Field :=
  {| FieldTitle := "Server"; FieldValue := "prod-01"; FieldShort := true |}.

Definition details : Attachment :=
  {| AttTitle := "Details"; AttText := ""; AttImageURL := ""; AttColor := "danger";
     AttFields := [field; field]; AttFooter := ""; AttFooterIcon := "" |}.

(** A Telegram transport that writes down the requests it gets and always
    answers 200. *)
Definition transport : @Telegram.Client (list string) string :=
  {| Telegram.Do := λ (req : string) (w : list string),
       (inr {| Telegram.StatusCode := 200; Telegram.Body := inr "ok" |}, w ++ [req]) |}.

Definition telegram_config : @Telegram.TelegramConfig (list string) string :=
  {| Telegram.BotToken := "token"; Telegram.ChatID := "42"; Telegram.ParseMode := "";
     Telegram.HTTPClient := None |}.

Definition Marshal (payload : gmap string any) : error + string := inr "{}".
Definition NewRequestWithContext (ctx : unit) (method url body : string)
  : error + string := inr url.
Definition Unmarshal (body : string) : error + (bool * string) := inr (true, "").

Definition telegram : @Telegram.TelegramNotifier (list string) string :=
  {| Telegram.botToken := "token"; Telegram.chatID := "42";
     Telegram.client := transport; Telegram.parseMode := "Markdown" |}.

(** The configuration the Quick Start reads from an environment in which
    the Telegram variables are not set, and what stands for a panic in
    this world. *)
Definition unset : @Telegram.TelegramConfig (list string) string :=
  {| Telegram.BotToken := ""; Telegram.ChatID := ""; Telegram.ParseMode := "";
     Telegram.HTTPClient := None |}.

Definition panicked (w : list string) : option error * list string :=
  (Some (externalError "panic: runtime error: invalid memory address or nil pointer dereference"),
   w).

(** A text of two lines. *)
Definition two_lines : string := "disk full" +:+ Custom.LF +:+ "on prod-01".

(** Two console notifiers in one registry. *)
Definition console : Notifier.t unit (list string) :=
  Custom.as_Notifier (Custom.NewCustomNotifier "console").
Definition email : Notifier.t unit (list string) :=
  Custom.as_Notifier (Custom.NewCustomNotifier "email").

Definition consoles : @Machine unit (list string) :=
  (Register (Some email) (Register (Some console) (NewManager [])).2).2.

Definition console_order (k : nat) (ns : gmap string (Notifier.t unit (list string)))
  : list (string * Notifier.t unit (list string)) :=
  map_to_list ns.

(** A Slack and a Telegram notifier in one registry, over one world. *)
Definition chat_transport : @Telegram.Client Posts string :=
  {| Telegram.Do := λ (req : string) (w : Posts),
       (inr {| Telegram.StatusCode := 200; Telegram.Body := inr "ok" |}, w ++ [(req, [])]) |}.

Definition chat_telegram : @Telegram.TelegramNotifier Posts string :=
  {| Telegram.botToken := "token"; Telegram.chatID := "42";
     Telegram.client := chat_transport; Telegram.parseMode := "Markdown" |}.

Definition slack_provider : Notifier.t unit Posts := Slack.as_Notifier bot.
Definition telegram_provider : Notifier.t unit Posts :=
  Telegram.as_Notifier string Marshal NewRequestWithContext Unmarshal chat_telegram.

Definition chats : @Machine unit Posts :=
  (Register (Some telegram_provider) (Register (Some slack_provider) (NewManager [])).2).2.

Definition chat_order (k : nat) (ns : gmap string (Notifier.t unit Posts))
  : list (string * Notifier.t unit Posts) :=
  map_to_list ns.

End Providers.

(** * Properties *)

(** ** The tests of the package, replayed on the model *)

Example TestNotificationError :
  Error (NotificationError "test" "test error" None)
  = "test notification error: test error".
Proof. reflexivity. Qed.

Example TestNewManager : (List Scenario.order Scenario.empty).1 = [].
Proof. reflexivity. Qed.

Example TestManagerRegister :
  (Register (Some Scenario.a) Scenario.empty).1 = None
  ∧ length (List Scenario.order Scenario.only_a).1 = 1
  ∧ is_Some (Register (Some Scenario.a) Scenario.only_a).1.
Proof. vm_compute. eauto. Qed.

Example TestManagerUnregister :
  (List Scenario.order (Unregister "a" Scenario.only_a).2).1 = [].
Proof. vm_compute. reflexivity. Qed.

Example TestManagerGet :
  Notifier.Name <$> (Get "a" Scenario.only_a).1 = Some "a"
  ∧ (Get "nonexistent" Scenario.only_a).1 = None.
Proof. vm_compute. eauto. Qed.

Example TestManagerSend :
  (Send tt "a" "Hello" Scenario.only_a).1 = None
  ∧ world (Send tt "a" "Hello" Scenario.only_a).2 !! 0
    = Some {| Mock.name := "a"; Mock.sendCalled := true;
              Mock.lastMessage := "Hello"; Mock.shouldFail := false |}.
Proof. vm_compute. eauto. Qed.

Example TestManagerBroadcastWithErrors :
  (Broadcast Scenario.order tt "Broadcast message" Scenario.both).1
  = [Errorf_tagged "b" (NotificationError "b" "mock error" None)]
  ∧ Mock.sendCalled <$> (map_to_list
      (world (Broadcast Scenario.order tt "Broadcast message" Scenario.both).2)).*2
    = [true; true].
Proof. vm_compute. eauto. Qed.

Example TestManagerBroadcastAsync :
  received <$> BroadcastAsync Scenario.order tt "hi" Scenario.interleaving Scenario.both
  = Some [ {| Provider := "b"; Success := false;
              ResError := Some (NotificationError "b" "mock error" None) |};
           {| Provider := "a"; Success := true; ResError := None |} ].
Proof. vm_compute. reflexivity. Qed.

Ltac unfold_M :=
  unfold mbind, mret, M_bind, M_ret, bind, ret, Lock, Unlock, RLock, RUnlock,
    read_notifiers, write_notifiers, range, set_mu, set_notifiers in *.

Section Registry.
Context {Ctx W : Type}.
Implicit Types (s : @Machine Ctx W) (nt : Notifier.t Ctx W) (name : string).

Lemma Register_nil s : Register None s = (Some InvalidProviderError, s).
Proof. reflexivity. Qed.

Lemma Register_duplicate s nt :
  is_Some (notifiers s !! Notifier.Name nt) →
  Register (Some nt) s =
    (Some (DuplicateProviderError (Notifier.Name nt)),
     {| notifiers := notifiers s;
        mu := {| readers := readers (mu s); writer := false |};
        world := world s; calls := calls s; iterations := iterations s |}).
Proof.
  intros [orig Horig]. unfold Register. unfold_M. simpl. by rewrite Horig.
Qed.

Lemma Register_fresh s nt :
  notifiers s !! Notifier.Name nt = None →
  Register (Some nt) s =
    (None,
     {| notifiers := <[Notifier.Name nt := nt]> (notifiers s);
        mu := {| readers := readers (mu s); writer := false |};
        world := world s; calls := calls s; iterations := iterations s |}).
Proof.
  intros Hfresh. unfold Register. unfold_M. simpl. by rewrite Hfresh.
Qed.

Lemma Unregister_eq s name :
  Unregister name s =
    (tt,
     {| notifiers := delete name (notifiers s);
        mu := {| readers := readers (mu s); writer := false |};
        world := world s; calls := calls s; iterations := iterations s |}).
Proof. reflexivity. Qed.

Lemma Get_eq s name :
  Get name s =
    (notifiers s !! name,
     {| notifiers := notifiers s;
        mu := {| readers := readers (mu s); writer := writer (mu s) |};
        world := world s; calls := calls s; iterations := iterations s |}).
Proof. reflexivity. Qed.

(** The registry built by [NewManager], [Register] and [Unregister] files
    every provider under its own name. *)
Lemma NewManager_keyed (w : W) : keyed_by_name (@NewManager Ctx W w).
Proof. intros key nt Hnt. simpl in Hnt. by rewrite lookup_empty in Hnt. Qed.

Lemma Register_keyed s (notifier : option (Notifier.t Ctx W)) :
  keyed_by_name s → keyed_by_name (Register notifier s).2.
Proof.
  intros Hs. destruct notifier as [nt|]; [|by rewrite Register_nil].
  destruct (notifiers s !! Notifier.Name nt) eqn:Hl.
  - rewrite Register_duplicate by eauto. exact Hs.
  - rewrite Register_fresh by done. intros key nt' Hnt'. simpl in Hnt'.
    destruct (decide (Notifier.Name nt = key)) as [<-|Hne].
    + rewrite lookup_insert_eq in Hnt'. by injection Hnt' as <-.
    + rewrite lookup_insert_ne in Hnt' by done. by apply Hs.
Qed.

Lemma Unregister_keyed s name : keyed_by_name s → keyed_by_name (Unregister name s).2.
Proof.
  intros Hs key nt Hnt. rewrite Unregister_eq in Hnt. simpl in Hnt.
  apply lookup_delete_Some in Hnt as [_ Hnt]. by apply Hs.
Qed.

(** A machine whose lock is free comes back from a locked section as it
    was. *)
Lemma Register_duplicate_unlocked s nt :
  mu s = unlocked →
  is_Some (notifiers s !! Notifier.Name nt) →
  (Register (Some nt) s).2 = s.
Proof.
  intros Hmu Hdup. rewrite Register_duplicate by done.
  destruct s as [ns l w cs k]. simpl in *. by subst l.
Qed.

Lemma Get_state s name : mu (Get name s).2 = mu s ∧ (mu s = unlocked → (Get name s).2 = s).
Proof.
  rewrite Get_eq. destruct s as [ns [r wr] w cs k]. simpl. split; [done|].
  by intros _.
Qed.

Lemma names_of_fold (l : list (string * Notifier.t Ctx W)) (acc : list string) :
  fold_left (λ names e, names ++ [e.1]) l acc = acc ++ l.*1.
Proof.
  revert acc. induction l as [|e l IH]; intros acc; simpl.
  - by rewrite app_nil_r.
  - rewrite IH. by rewrite <- app_assoc.
Qed.

Section WithOrder.
Variable range_order : nat → gmap string (Notifier.t Ctx W)
                       → list (string * Notifier.t Ctx W).
Hypothesis range_order_enumerates :
  ∀ k ns, range_order k ns ≡ₚ map_to_list ns.

Lemma List_eq s :
  List range_order s =
    ((range_order (iterations s) (notifiers s)).*1,
     {| notifiers := notifiers s;
        mu := {| readers := readers (mu s); writer := writer (mu s) |};
        world := world s; calls := calls s; iterations := S (iterations s) |}).
Proof. unfold List. unfold_M. simpl. by rewrite names_of_fold. Qed.

Lemma List_keys s : (List range_order s).1 ≡ₚ (map_to_list (notifiers s)).*1.
Proof. rewrite List_eq. simpl. by rewrite range_order_enumerates. Qed.

Lemma elem_of_List s name :
  name ∈ (List range_order s).1 ↔ is_Some (notifiers s !! name).
Proof.
  rewrite List_keys. rewrite list_elem_of_fmap. split.
  - intros [[k v] [-> Hin]]. apply elem_of_map_to_list in Hin. by exists v.
  - intros [v Hv]. exists (name, v). split; [done|]. by apply elem_of_map_to_list.
Qed.

End WithOrder.
End Registry.

(** ** Registration *)

(** C7. [Register] called with the nil interface value fails with
    [InvalidProviderError] and leaves the machine, hence the registry,
    exactly as it was.  Called with an interface value that holds a nil
    [*SlackNotifier] or a nil [*TelegramNotifier] it does not: the nil
    test is false of such a value and [Name] answers without reading the
    receiver, so in no state is the error [InvalidProviderError], and when
    the name "slack" or "telegram" is free the call returns nil and the
    nil pointer is in the registry, which has changed. *)
Theorem C7_register_nil_provider {Ctx W Request : Type}
    (nil_dereference : W → option error * W)
    (Marshal : gmap string any → error + string)
    (NewRequestWithContext : Ctx → string → string → string → error + Request)
    (Unmarshal : string → error + (bool * string))
    (s : @Machine Ctx W) :
  let nil_slack : Notifier.t Ctx W := Pointer.slack nil_dereference None in
  let nil_telegram : Notifier.t Ctx W :=
    Pointer.telegram nil_dereference Request Marshal NewRequestWithContext Unmarshal None in
  ((Register None s).1 = Some InvalidProviderError ∧ (Register None s).2 = s)
  ∧ (Register (Some nil_slack) s).1 ≠ Some InvalidProviderError
  ∧ (Register (Some nil_telegram) s).1 ≠ Some InvalidProviderError
  ∧ (notifiers s !! "slack" = None →
       (Register (Some nil_slack) s).1 = None
       ∧ notifiers (Register (Some nil_slack) s).2 = <["slack" := nil_slack]> (notifiers s)
       ∧ notifiers (Register (Some nil_slack) s).2 ≠ notifiers s)
  ∧ (notifiers s !! "telegram" = None →
       (Register (Some nil_telegram) s).1 = None
       ∧ notifiers (Register (Some nil_telegram) s).2
         = <["telegram" := nil_telegram]> (notifiers s)
       ∧ notifiers (Register (Some nil_telegram) s).2 ≠ notifiers s).
Proof.
  intros nil_slack nil_telegram.
  assert (∀ nt : Notifier.t Ctx W,
            (Register (Some nt) s).1 ≠ Some InvalidProviderError
            ∧ (notifiers s !! Notifier.Name nt = None →
                 (Register (Some nt) s).1 = None
                 ∧ notifiers (Register (Some nt) s).2
                   = <[Notifier.Name nt := nt]> (notifiers s)
                 ∧ notifiers (Register (Some nt) s).2 ≠ notifiers s)) as Hstored.
  { intros nt. destruct (notifiers s !! Notifier.Name nt) as [q|] eqn:Hq.
    - rewrite Register_duplicate by eauto. simpl. split; [|done].
      unfold InvalidProviderError. intros [=].
    - rewrite Register_fresh by done. simpl. split; [done|]. intros _.
      split; [done|]. split; [done|]. intros Heq.
      rewrite <- Heq, lookup_insert_eq in Hq. discriminate Hq. }
  split; [by rewrite Register_nil|].
  split; [apply (Hstored nil_slack)|]. split; [apply (Hstored nil_telegram)|].
  split; [apply (Hstored nil_slack)|apply (Hstored nil_telegram)].
Qed.

Lemma C7_witness :
  Pointer.pointer_of
    (Telegram.NewTelegramNotifier string Providers.transport Providers.unset) = None
  ∧ notifiers (NewManager (Ctx := unit) ([] : list string)) !! "telegram" = None
  ∧ (Pointer.register_telegram Providers.panicked string Providers.Marshal
       Providers.NewRequestWithContext Providers.Unmarshal Providers.transport
       Providers.unset (NewManager [])).1 = None
  ∧ size (notifiers
            (Pointer.register_telegram Providers.panicked string Providers.Marshal
               Providers.NewRequestWithContext Providers.Unmarshal Providers.transport
               Providers.unset (NewManager [])).2) = 1.
Proof.
  split; [reflexivity|]. split; [reflexivity|].
  pose proof (C7_register_nil_provider Providers.panicked Providers.Marshal
                Providers.NewRequestWithContext Providers.Unmarshal
                (NewManager (Ctx := unit) ([] : list string)))
    as (_ & _ & _ & _ & Htelegram).
  destruct (Htelegram eq_refl) as (Hnil & Hstored & _).
  split; [exact Hnil|]. vm_compute. reflexivity.
Defined.

(** C3. When a provider is registered under the identity of [nt], a call
    [Register nt] fails with [DuplicateProviderError] and the registry is
    unchanged: the identity still maps to the provider registered first,
    and the size is the same.  Neither the world nor the call log moves. *)
Theorem C3_register_duplicate_rejected {Ctx W : Type}
    (s : @Machine Ctx W) (original nt : Notifier.t Ctx W) :
  notifiers s !! Notifier.Name nt = Some original →
  let r := Register (Some nt) s in
  r.1 = Some (DuplicateProviderError (Notifier.Name nt))
  ∧ notifiers r.2 = notifiers s
  ∧ notifiers r.2 !! Notifier.Name nt = Some original
  ∧ size (notifiers r.2) = size (notifiers s)
  ∧ world r.2 = world s
  ∧ calls r.2 = calls s.
Proof.
  intros Horig r. subst r. rewrite Register_duplicate by eauto. simpl.
  by repeat split.
Qed.

Lemma C3_witness :
  notifiers Scenario.only_a !! Notifier.Name Scenario.a' = Some Scenario.a
  ∧ (Register (Some Scenario.a') Scenario.only_a).1 = Some (DuplicateProviderError "a")
  ∧ notifiers (Register (Some Scenario.a') Scenario.only_a).2 = notifiers Scenario.only_a.
Proof.
  split; [reflexivity|].
  pose proof (C3_register_duplicate_rejected Scenario.only_a Scenario.a Scenario.a'
                eq_refl) as (Herr & Hsame & _).
  split; [exact Herr|exact Hsame].
Defined.

(** C5. [Unregister] returns no error on any state.  On an absent name it
    leaves the registry, and with it the names [List] returns, unchanged;
    a second [Unregister] of the same name changes nothing.  After
    [Register p] and [Unregister] of the name of [p], [Get] reports the
    name absent and [List] does not contain it.  The registry is then the
    one before the two calls without its entry for that name: it is the
    one before exactly when the registration took place, that is when the
    name was free. *)
Theorem C5_unregister_idempotent {Ctx W : Type}
    (range_order : nat → gmap string (Notifier.t Ctx W) → list (string * Notifier.t Ctx W))
    (range_order_enumerates : ∀ k ns, range_order k ns ≡ₚ map_to_list ns)
    (s : @Machine Ctx W) (name : string) (p : Notifier.t Ctx W) :
  (notifiers s !! name = None →
     notifiers (Unregister name s).2 = notifiers s
     ∧ (List range_order (Unregister name s).2).1 ≡ₚ (List range_order s).1)
  ∧ notifiers (Unregister name (Unregister name s).2).2 = notifiers (Unregister name s).2
  ∧ (let s' := (Unregister (Notifier.Name p) (Register (Some p) s).2).2 in
     (Get (Notifier.Name p) s').1 = None
     ∧ (Notifier.Name p ∉ (List range_order s').1)
     ∧ ((Register (Some p) s).1 = None → notifiers s' = notifiers s)
     ∧ notifiers s' = delete (Notifier.Name p) (notifiers s)
     ∧ (notifiers s' = notifiers s ↔ (Register (Some p) s).1 = None)).
Proof.
  split; [|split].
  - intros Habsent. rewrite !List_keys by done. rewrite Unregister_eq. simpl.
    rewrite delete_id by done. done.
  - rewrite !Unregister_eq. simpl. apply delete_delete_eq.
  - intros s'. subst s'. rewrite elem_of_List by done.
    destruct (notifiers s !! Notifier.Name p) as [q|] eqn:Hq.
    + rewrite Register_duplicate by eauto.
      rewrite Get_eq, Unregister_eq. simpl. rewrite lookup_delete_eq.
      split; [done|]. split; [by intros [? ?]|]. split; [done|]. split; [done|].
      split; [|done]. intros Heq. rewrite <- Heq, lookup_delete_eq in Hq.
      discriminate Hq.
    + rewrite Register_fresh by done.
      rewrite Get_eq, Unregister_eq. simpl. rewrite lookup_delete_eq.
      assert (delete (Notifier.Name p) (<[Notifier.Name p := p]> (notifiers s))
              = notifiers s) as Hrestored.
      { rewrite delete_insert_eq. by apply delete_id. }
      split; [done|]. split; [by intros [? ?]|]. split; [done|].
      split; [by rewrite delete_insert_eq|]. done.
Qed.

Lemma C5_witness :
  (∀ k ns, Scenario.order k ns ≡ₚ map_to_list ns)
  ∧ notifiers Scenario.only_a !! "b" = None
  ∧ (Register (Some Scenario.b) Scenario.only_a).1 = None
  ∧ notifiers (Unregister "b" Scenario.only_a).2 = notifiers Scenario.only_a
  ∧ notifiers (Unregister "b" (Register (Some Scenario.b) Scenario.only_a).2).2
    = notifiers Scenario.only_a.
Proof.
  split; [intros; reflexivity|]. split; [reflexivity|]. split; [reflexivity|].
  pose proof (C5_unregister_idempotent Scenario.order (λ _ _, reflexivity _)
                Scenario.only_a "b" Scenario.b) as (Habsent & _ & _ & _ & Hrestored & _).
  split; [exact (proj1 (Habsent eq_refl))|exact (Hrestored eq_refl)].
Defined.

(** C5, where it fails as stated.  The manager holds the mock "a"; a
    second provider that calls itself "a" is handed to [Register], which
    rejects it, and [Unregister] of its name then removes the mock
    registered first: [List] goes from ["a"] to nothing, so the registry
    is not restored to the state before the two calls. *)
Lemma C5_counterexample :
  ¬ (notifiers (Unregister (Notifier.Name Scenario.a')
                  (Register (Some Scenario.a') Scenario.only_a).2).2
     = notifiers Scenario.only_a)
  ∧ (Register (Some Scenario.a') Scenario.only_a).1 = Some (DuplicateProviderError "a")
  ∧ (List Scenario.order Scenario.only_a).1 = ["a"]
  ∧ (List Scenario.order
       (Unregister (Notifier.Name Scenario.a')
          (Register (Some Scenario.a') Scenario.only_a).2).2).1 = [].
Proof.
  split; [|by vm_compute].
  intros Heq.
  assert (notifiers Scenario.only_a !! "a" = Some Scenario.a) as Ha by reflexivity.
  rewrite <- Heq in Ha. vm_compute in Ha. discriminate Ha.
Qed.

(** ** Targeted send and synchronous broadcast *)

Section Dispatch.
Context {Ctx W : Type}.
Implicit Types (s : @Machine Ctx W) (nt : Notifier.t Ctx W) (p : Payload Ctx).
Implicit Types (l : list (string * Notifier.t Ctx W)).

Lemma invoke_eq nt p s :
  invoke nt p s =
    ((dispatch nt p (world s)).1,
     {| notifiers := notifiers s; mu := mu s; world := (dispatch nt p (world s)).2;
        calls := calls s ++ [ {| callee := nt; payload := p; mu_at_call := mu s;
                                 outcome := (dispatch nt p (world s)).1 |} ];
        iterations := iterations s |}).
Proof. unfold invoke. by destruct (dispatch nt p (world s)). Qed.

Lemma send_to_absent name p s :
  notifiers s !! name = None →
  send_to name p s = (Some (ProviderNotFoundError name), (Get name s).2).
Proof.
  intros Habsent. unfold send_to. unfold_M.
  rewrite Get_eq. simpl. by rewrite Habsent.
Qed.

Lemma send_to_present name nt p s :
  notifiers s !! name = Some nt →
  send_to name p s = invoke nt p (Get name s).2.
Proof.
  intros Hnt. unfold send_to. unfold_M.
  rewrite Get_eq. simpl. by rewrite Hnt.
Qed.

Lemma length_outcomes_of p l w : length (outcomes_of p l w).1 = length l.
Proof.
  revert w. induction l as [|[name nt] l IH]; intros w; simpl; [done|].
  destruct (dispatch nt p w) as [err w']. specialize (IH w').
  destruct (outcomes_of p l w') as [outs w'']. simpl in *. by rewrite IH.
Qed.

Lemma broadcast_loop_eq p l errors s :
  broadcast_loop p l errors s =
    (errors ++ failures l (outcomes_of p l (world s)).1,
     {| notifiers := notifiers s; mu := mu s;
        world := (outcomes_of p l (world s)).2;
        calls := calls s ++ logged p (mu s) l (outcomes_of p l (world s)).1;
        iterations := iterations s |}).
Proof.
  revert errors s. induction l as [|[name nt] l IH]; intros errors s; simpl.
  - unfold_M. unfold failures, logged. simpl. rewrite !app_nil_r. by destruct s.
  - unfold_M. rewrite invoke_eq. rewrite IH. simpl.
    destruct (dispatch nt p (world s)) as [err w']. simpl.
    destruct (outcomes_of p l w') as [outs w'']. simpl.
    unfold failures, logged. simpl. rewrite <- !app_assoc. simpl.
    destruct err; simpl; [by rewrite <- app_assoc|done].
Qed.


Lemma failures_nil_iff l (outs : list (option error)) :
  length l = length outs →
  failures l outs = [] ↔ Forall (λ o, o = None) outs.
Proof.
  revert outs. induction l as [|e l IH]; intros [|o outs] Hlen;
    simpl in *; try done.
  injection Hlen as Hlen. specialize (IH outs Hlen). unfold failures in *. simpl.
  destruct o as [err|]; simpl.
  - split; [done|]. intros Hall. by inversion Hall.
  - rewrite IH. split; [by constructor|]. intros Hall. by inversion Hall.
Qed.

Lemma callee_logged p lk l (outs : list (option error)) :
  length l = length outs → callee <$> logged p lk l outs = l.*2.
Proof.
  revert outs. induction l as [|e l IH]; intros [|o outs] Hlen;
    simpl in *; try done.
  injection Hlen as Hlen. unfold logged in *. simpl. by rewrite IH.
Qed.

Section WithOrder.
Variable range_order : nat → gmap string (Notifier.t Ctx W)
                       → list (string * Notifier.t Ctx W).

Lemma broadcast_eq p s :
  let l := range_order (iterations s) (notifiers s) in
  let held := {| readers := S (readers (mu s)); writer := writer (mu s) |} in
  broadcast range_order p s =
    (failures l (outcomes_of p l (world s)).1,
     {| notifiers := notifiers s;
        mu := {| readers := readers (mu s); writer := writer (mu s) |};
        world := (outcomes_of p l (world s)).2;
        calls := calls s ++ logged p held l (outcomes_of p l (world s)).1;
        iterations := S (iterations s) |}).
Proof.
  intros l held. unfold broadcast. unfold_M. simpl.
  rewrite broadcast_loop_eq. simpl. done.
Qed.

End WithOrder.
End Dispatch.

Lemma mu_eta (m : RWMutex) : {| readers := readers m; writer := writer m |} = m.
Proof. by destruct m. Qed.

Lemma send_to_spec {Ctx W : Type} (s : @Machine Ctx W) (name : string) (p : Payload Ctx) :
  let r := send_to name p s in
  notifiers r.2 = notifiers s
  ∧ match notifiers s !! name with
    | None =>
        r.1 = Some (ProviderNotFoundError name)
        ∧ calls r.2 = calls s
        ∧ world r.2 = world s
    | Some nt =>
        r.1 = (dispatch nt p (world s)).1
        ∧ world r.2 = (dispatch nt p (world s)).2
        ∧ calls r.2 = calls s ++ [ {| callee := nt; payload := p; mu_at_call := mu s;
                                      outcome := (dispatch nt p (world s)).1 |} ]
    end.
Proof.
  intros r. subst r. destruct (notifiers s !! name) as [nt|] eqn:Hnt.
  - rewrite (send_to_present name nt) by done. rewrite invoke_eq, Get_eq. simpl.
    by rewrite mu_eta.
  - rewrite send_to_absent by done. by rewrite Get_eq.
Qed.

(** C4. [Send] on a name that is not registered fails with
    [ProviderNotFoundError] and calls no provider; on a registered name it
    returns what the simple-text send of the provider found returns, as it
    is, and calls that provider once.  [SendWithOptions] does the same with
    the rich send. *)
Theorem C4_send_lookup_contract {Ctx W : Type}
    (s : @Machine Ctx W) (ctx : Ctx) (name text : string) (msg : Message) :
  (notifiers s !! name = None →
     (Send ctx name text s).1 = Some (ProviderNotFoundError name)
     ∧ calls (Send ctx name text s).2 = calls s
     ∧ world (Send ctx name text s).2 = world s
     ∧ (SendWithOptions ctx name msg s).1 = Some (ProviderNotFoundError name)
     ∧ calls (SendWithOptions ctx name msg s).2 = calls s
     ∧ world (SendWithOptions ctx name msg s).2 = world s)
  ∧ (∀ nt, notifiers s !! name = Some nt →
       (Send ctx name text s).1 = (Notifier.Send nt ctx text (world s)).1
       ∧ world (Send ctx name text s).2 = (Notifier.Send nt ctx text (world s)).2
       ∧ calls (Send ctx name text s).2 =
           calls s ++ [ {| callee := nt; payload := SimpleText ctx text;
                           mu_at_call := mu s;
                           outcome := (Notifier.Send nt ctx text (world s)).1 |} ]
       ∧ (SendWithOptions ctx name msg s).1
           = (Notifier.SendWithOptions nt ctx msg (world s)).1
       ∧ world (SendWithOptions ctx name msg s).2
           = (Notifier.SendWithOptions nt ctx msg (world s)).2
       ∧ calls (SendWithOptions ctx name msg s).2 =
           calls s ++ [ {| callee := nt; payload := WithOptions ctx msg;
                           mu_at_call := mu s;
                           outcome := (Notifier.SendWithOptions nt ctx msg (world s)).1 |} ]).
Proof.
  pose proof (send_to_spec s name (SimpleText ctx text)) as [_ Htext].
  pose proof (send_to_spec s name (WithOptions ctx msg)) as [_ Hrich].
  unfold Send, SendWithOptions. split.
  - intros Habsent. rewrite Habsent in Htext, Hrich.
    destruct Htext as (? & ? & ?), Hrich as (? & ? & ?). by repeat split.
  - intros nt Hnt. rewrite Hnt in Htext, Hrich. simpl in Htext, Hrich.
    destruct Htext as (? & ? & ?), Hrich as (? & ? & ?). by repeat split.
Qed.

Lemma C4_witness :
  notifiers Scenario.both !! "missing" = None
  ∧ notifiers Scenario.both !! "b" = Some Scenario.b
  ∧ (Send tt "missing" "hi" Scenario.both).1 = Some (ProviderNotFoundError "missing")
  ∧ (Send tt "b" "hi" Scenario.both).1
    = (Notifier.Send Scenario.b tt "hi" (world Scenario.both)).1.
Proof.
  split; [reflexivity|]. split; [reflexivity|]. split.
  - exact (proj1 (proj1 (C4_send_lookup_contract Scenario.both tt "missing" "hi"
                           Scenario.hello) eq_refl)).
  - exact (proj1 (proj2 (C4_send_lookup_contract Scenario.both tt "b" "hi"
                           Scenario.hello) Scenario.b eq_refl)).
Defined.




(** ** Concurrent broadcast *)

Section Concurrent.
Context {Ctx W : Type}.
Implicit Types (s : @Machine Ctx W) (p : Payload Ctx) (a : @Async Ctx W).
Implicit Types (g : @Goroutine Ctx W) (us : list (@Goroutine Ctx W)).
Implicit Types (l : list (string * Notifier.t Ctx W)).

(** The goroutine at position [i] splits the list around it, and an update
    at [i] replaces just the middle. *)
Lemma units_split us i g :
  us !! i = Some g →
  ∃ us1 us2, us = us1 ++ g :: us2 ∧ ∀ g', <[i := g']> us = us1 ++ g' :: us2.
Proof.
  intros Hg. exists (take i us), (drop (S i) us). split.
  - by rewrite take_drop_middle.
  - intros g'. apply insert_take_drop. by eapply lookup_lt_Some.
Qed.

Lemma copy_loop l (acc : gmap string (Notifier.t Ctx W)) :
  fold_left (λ acc e, <[e.1 := e.2]> acc) l acc
  = foldr (λ e, <[e.1 := e.2]>) acc (reverse l).
Proof.
  revert acc. induction l as [|e l IH]; intros acc; simpl; [done|].
  rewrite IH, reverse_cons, foldr_app. done.
Qed.

Lemma copy_of_registry l (ns : gmap string (Notifier.t Ctx W)) :
  l ≡ₚ map_to_list ns →
  fold_left (λ acc e, <[e.1 := e.2]> acc) l ∅ = ns.
Proof.
  intros Hl.
  rewrite <- (list_to_map_to_list ns).
  rewrite <- (list_to_map_proper (reverse l) (map_to_list ns)).
  - by rewrite copy_loop.
  - rewrite fmap_reverse, reverse_Permutation, Hl.
    apply NoDup_fst_map_to_list.
  - by rewrite reverse_Permutation.
Qed.

Section WithOrder.
Variable range_order : nat → gmap string (Notifier.t Ctx W)
                       → list (string * Notifier.t Ctx W).
Hypothesis range_order_enumerates : ∀ k ns, range_order k ns ≡ₚ map_to_list ns.

Lemma snapshot_eq s :
  snapshot range_order s =
    (notifiers s,
     {| notifiers := notifiers s;
        mu := {| readers := readers (mu s); writer := writer (mu s) |};
        world := world s; calls := calls s; iterations := S (iterations s) |}).
Proof.
  unfold snapshot. unfold_M. simpl.
  by rewrite (copy_of_registry _ (notifiers s)) by apply range_order_enumerates.
Qed.

Lemma async_start_eq s :
  (async_start range_order s).1 =
    {| machine :=
         {| notifiers := notifiers s;
            mu := {| readers := readers (mu s); writer := writer (mu s) |};
            world := world s; calls := calls s;
            iterations := S (S (iterations s)) |};
       spawning := range_order (S (iterations s)) (notifiers s);
       units := []; wg := 0; resultChan := [];
       capacity := size (notifiers s);
       closed := false; returned := false; received := [] |}.
Proof.
  unfold async_start. unfold mbind, M_bind, bind. rewrite snapshot_eq. reflexivity.
Qed.

Lemma async_inv_start s :
  async_inv (range_order (S (iterations s)) (notifiers s)) (async_start range_order s).1.
Proof.
  rewrite async_start_eq. split; simpl; try done.
  rewrite range_order_enumerates. by rewrite length_map_to_list.
Qed.

End WithOrder.

Lemma exec_inv p l0 act a a' :
  async_inv l0 a → exec p act a = Some a' → async_inv l0 a'.
Proof.
  intros [Hunits Hwg Hres Hcap Hret Hclosed] Hexec.
  destruct act as [| |i|i|i| | |[notifier|name]]; simpl in Hexec.
  - (* spawn *)
    destruct (spawning a) as [|[name notifier] rest] eqn:Hsp; [done|].
    destruct (returned a) eqn:Hr; [done|]. injection Hexec as <-.
    split; simpl; try done.
    + rewrite fmap_app. simpl. by rewrite <- app_assoc.
    + rewrite sum_list_with_app. simpl. lia.
    + rewrite omap_app. simpl. by rewrite app_nil_r.
    + intros Hc. by destruct (Hclosed Hc).
  - (* return *)
    destruct (spawning a) eqn:Hsp; [|done].
    destruct (returned a) eqn:Hr; [done|]. injection Hexec as <-.
    split; simpl; try done.
    intros Hc. by destruct (Hclosed Hc).
  - (* send *)
    destruct (units a !! i) as [g|] eqn:Hg; [|done].
    destruct (phase g) eqn:Hph; try done.
    destruct (invoke (nt g) p (machine a)) as [err s']. injection Hexec as <-.
    destruct (units_split _ _ _ Hg) as (us1 & us2 & Hus & Hins).
    split; simpl; rewrite ?Hins; try done.
    + rewrite <- Hunits, Hus. by rewrite !fmap_app.
    + rewrite Hwg, Hus. rewrite !sum_list_with_app. simpl.
      unfold alive. simpl. by rewrite Hph.
    + rewrite Hres, Hus. rewrite !omap_app. simpl.
      unfold reported. simpl. by rewrite Hph.
  - (* deliver *)
    destruct (units a !! i) as [g|] eqn:Hg; [|done].
    destruct (phase g) as [ |err| | ] eqn:Hph; try done.
    destruct (closed a) eqn:Hc; [done|].
    case_decide; [|done]. injection Hexec as <-.
    destruct (units_split _ _ _ Hg) as (us1 & us2 & Hus & Hins).
    split; simpl; rewrite ?Hins; try done.
    + rewrite <- Hunits, Hus. by rewrite !fmap_app.
    + rewrite Hwg, Hus. rewrite !sum_list_with_app. simpl.
      unfold alive. simpl. by rewrite Hph.
    + rewrite app_assoc, fmap_app, Hres, Hus. rewrite !omap_app. simpl.
      unfold reported at 2 4. simpl. rewrite Hph.
      rewrite <- app_assoc. apply Permutation_app_head.
      symmetry. apply Permutation_cons_append.
    + by rewrite Hc.
  - (* done *)
    destruct (units a !! i) as [g|] eqn:Hg; [|done].
    destruct (phase g) eqn:Hph; try done.
    destruct (wg a) as [|k] eqn:Hk; [done|]. injection Hexec as <-.
    destruct (units_split _ _ _ Hg) as (us1 & us2 & Hus & Hins).
    split; simpl; rewrite ?Hins; try done.
    + rewrite <- Hunits, Hus. by rewrite !fmap_app.
    + assert (alive g = 1) as Hg1 by (unfold alive; by rewrite Hph).
      rewrite Hus in Hwg. rewrite !sum_list_with_app in *. simpl in *. lia.
    + rewrite Hres, Hus. rewrite !omap_app. simpl.
      unfold reported at 2 4. simpl. by rewrite Hph.
    + intros Hc. destruct (Hclosed Hc) as [_ ?]. lia.
  - (* close *)
    destruct (returned a) eqn:Hr; [|done].
    destruct (wg a) eqn:Hk; [|done].
    destruct (closed a) eqn:Hc; [done|]. injection Hexec as <-.
    split; simpl; try done.
  - (* receive *)
    destruct (returned a) eqn:Hr; [|done].
    destruct (resultChan a) as [|r rest] eqn:Hch; [done|]. injection Hexec as <-.
    split; simpl; try done.
    by rewrite <- app_assoc.
  - injection Hexec as <-. by split.
  - injection Hexec as <-. by split.
Qed.

Lemma run_inv p l0 sched a a' :
  async_inv l0 a → run p sched a = Some a' → async_inv l0 a'.
Proof.
  revert a. induction sched as [|act sched IH]; intros a Hinv Hrun; simpl in Hrun.
  - by injection Hrun as <-.
  - destruct (exec p act a) as [a1|] eqn:Hexec; [|done].
    eapply IH; [|done]. by eapply exec_inv.
Qed.

Lemma run_app p sched1 sched2 a a1 :
  run p sched1 a = Some a1 → run p (sched1 ++ sched2) a = run p sched2 a1.
Proof.
  revert a. induction sched1 as [|act sched1 IH]; intros a Hrun; simpl in *.
  - by injection Hrun as <-.
  - destruct (exec p act a) as [a'|]; [by apply IH|done].
Qed.



Lemma length_reported us : length (omap reported us) ≤ length us.
Proof.
  induction us as [|g us IH]; [done|].
  change (omap reported (g :: us))
    with (match reported g with
          | Some y => y :: omap reported us
          | None => omap reported us
          end).
  destruct (reported g); simpl; lia.
Qed.

Lemma all_finished_reported us :
  sum_list_with alive us = 0 → omap reported us = n <$> us.
Proof.
  induction us as [|g us IH]; [done|].
  change (omap reported (g :: us))
    with (match reported g with
          | Some y => y :: omap reported us
          | None => omap reported us
          end).
  simpl. unfold alive at 1, reported at 1.
  destruct (phase g); simpl; intros Hsum; try lia. by rewrite IH.
Qed.

Lemma unfinished_or_all_finished us :
  (∃ i g, us !! i = Some g ∧ phase g ≠ Finished)
  ∨ sum_list_with alive us = 0.
Proof.
  induction us as [|g us [(i & g' & Hg' & Hph)|Hall]]; simpl.
  - by right.
  - left. by exists (S i), g'.
  - destruct (phase g) eqn:Hph.
    + left. exists 0, g. by rewrite Hph.
    + left. exists 0, g. by rewrite Hph.
    + left. exists 0, g. by rewrite Hph.
    + right. unfold alive at 1. by rewrite Hph.
Qed.

Lemma results_bounded l0 a :
  async_inv l0 a → length (received a ++ resultChan a) ≤ length l0.
Proof.
  intros [Hunits _ Hres _ _ _].
  rewrite <- (length_fmap Provider), Hres.
  etrans; [apply length_reported|].
  rewrite <- Hunits, length_app, length_fmap. lia.
Qed.

(** When the channel is closed, it has been given one result for every
    entry of the copy. *)
Lemma results_at_close l0 a :
  async_inv l0 a → closed a = true →
  Provider <$> (received a ++ resultChan a) ≡ₚ l0.*1.
Proof.
  intros [Hunits Hwg Hres _ Hret Hclosed] Hc.
  destruct (Hclosed Hc) as [Hr Hzero]. specialize (Hret Hr).
  rewrite Hres, all_finished_reported by lia.
  rewrite <- Hunits, Hret, app_nil_r. rewrite <- list_fmap_compose. done.
Qed.




(** The moves of the broadcast leave the registry alone. *)
Lemma exec_frame p act a a' :
  exec p act a = Some a' → is_env act = false →
  notifiers (machine a') = notifiers (machine a).
Proof.
  intros Hexec Hown.
  destruct act as [| |i|i|i| | |op]; simpl in Hexec; try done.
  - destruct (spawning a) as [|[name notifier] rest]; [done|].
    destruct (returned a); [done|]. by injection Hexec as <-.
  - destruct (spawning a); [|done].
    destruct (returned a); [done|]. by injection Hexec as <-.
  - destruct (units a !! i) as [g|]; [|done].
    destruct (phase g); try done. rewrite invoke_eq in Hexec.
    by injection Hexec as <-.
  - destruct (units a !! i) as [g|]; [|done].
    destruct (phase g); try done. destruct (closed a); [done|].
    case_decide; [|done]. by injection Hexec as <-.
  - destruct (units a !! i) as [g|]; [|done].
    destruct (phase g); try done. destruct (wg a); [done|].
    by injection Hexec as <-.
  - destruct (returned a); [|done]. destruct (wg a); [|done].
    destruct (closed a); [done|]. by injection Hexec as <-.
  - destruct (returned a); [|done]. destruct (resultChan a); [done|].
    by injection Hexec as <-.
Qed.

Lemma run_frame p sched a a' :
  run p sched a = Some a' → own_moves sched = sched →
  notifiers (machine a') = notifiers (machine a).
Proof.
  revert a. induction sched as [|act sched IH]; intros a Hrun Hown; simpl in Hrun.
  - by injection Hrun as <-.
  - destruct (exec p act a) as [a1|] eqn:Hexec; [|done].
    unfold own_moves in Hown.
    destruct (is_env act) eqn:Henv.
    + rewrite filter_cons_False in Hown by (by rewrite Henv).
      pose proof (length_filter (λ act, is_env act = false) sched) as Hlen.
      rewrite Hown in Hlen. simpl in Hlen. lia.
    + rewrite filter_cons_True in Hown by done. injection Hown as Hown.
      rewrite (IH a1) by done. by eapply exec_frame.
Qed.

(** With the lock free at the start, every provider call a goroutine of
    the broadcast makes is made with the lock free, whatever registrations
    happen meanwhile. *)
Lemma exec_calls_unlocked p act a a' :
  exec p act a = Some a' →
  mu (machine a) = unlocked →
  mu (machine a') = unlocked
  ∧ ∃ cs, calls (machine a') = calls (machine a) ++ cs
          ∧ Forall (λ c, mu_at_call c = unlocked) cs.
Proof.
  intros Hexec Hmu.
  assert (∀ x : @Async Ctx W, machine x = machine a →
            mu (machine x) = unlocked
            ∧ ∃ cs, calls (machine x) = calls (machine a) ++ cs
                    ∧ Forall (λ c, mu_at_call c = unlocked) cs) as Hsame.
  { intros x ->. split; [done|]. exists []. by rewrite app_nil_r. }
  destruct act as [| |i|i|i| | |[notifier|name]]; simpl in Hexec.
  - destruct (spawning a) as [|[name notifier] rest]; [done|].
    destruct (returned a); [done|]. injection Hexec as <-. by apply Hsame.
  - destruct (spawning a); [|done].
    destruct (returned a); [done|]. injection Hexec as <-. by apply Hsame.
  - destruct (units a !! i) as [g|]; [|done].
    destruct (phase g); try done. rewrite invoke_eq in Hexec.
    injection Hexec as <-. simpl. split; [done|].
    eexists. split; [done|]. by repeat constructor.
  - destruct (units a !! i) as [g|]; [|done].
    destruct (phase g); try done. destruct (closed a); [done|].
    case_decide; [|done]. injection Hexec as <-. by apply Hsame.
  - destruct (units a !! i) as [g|]; [|done].
    destruct (phase g); try done. destruct (wg a); [done|].
    injection Hexec as <-. by apply Hsame.
  - destruct (returned a); [|done]. destruct (wg a); [|done].
    destruct (closed a); [done|]. injection Hexec as <-. by apply Hsame.
  - destruct (returned a); [|done]. destruct (resultChan a); [done|].
    injection Hexec as <-. by apply Hsame.
  - injection Hexec as <-. simpl.
    destruct notifier as [nt'|].
    + destruct (notifiers (machine a) !! Notifier.Name nt') eqn:Hl.
      * rewrite Register_duplicate by eauto. simpl. rewrite Hmu. split; [done|].
        exists []. by rewrite app_nil_r.
      * rewrite Register_fresh by done. simpl. rewrite Hmu. split; [done|].
        exists []. by rewrite app_nil_r.
    + rewrite Register_nil. simpl. split; [done|]. exists []. by rewrite app_nil_r.
  - injection Hexec as <-. simpl. rewrite Hmu.
    split; [done|]. exists []. by rewrite app_nil_r.
Qed.

Lemma run_calls_unlocked p sched a a' :
  run p sched a = Some a' →
  mu (machine a) = unlocked →
  ∃ cs, calls (machine a') = calls (machine a) ++ cs
        ∧ Forall (λ c, mu_at_call c = unlocked) cs.
Proof.
  revert a. induction sched as [|act sched IH]; intros a Hrun Hmu; simpl in Hrun.
  - injection Hrun as <-. exists []. by rewrite app_nil_r.
  - destruct (exec p act a) as [a1|] eqn:Hexec; [|done].
    destruct (exec_calls_unlocked _ _ _ _ Hexec Hmu) as (Hmu1 & cs1 & Hcs1 & Hall1).
    destruct (IH a1 Hrun Hmu1) as (cs & Hcs & Hall).
    exists (cs1 ++ cs). rewrite Hcs, Hcs1, app_assoc. split; [done|].
    by apply Forall_app.
Qed.

Section WithOrder.
Variable range_order : nat → gmap string (Notifier.t Ctx W)
                       → list (string * Notifier.t Ctx W).
Hypothesis range_order_enumerates : ∀ k ns, range_order k ns ≡ₚ map_to_list ns.


Lemma broadcast_async_frame p sched s a :
  broadcast_async range_order p sched s = Some a → own_moves sched = sched →
  notifiers (machine a) = notifiers s.
Proof.
  unfold broadcast_async. intros Hrun Hown.
  rewrite (run_frame _ _ _ _ Hrun Hown). by rewrite async_start_eq.
Qed.

Lemma broadcast_async_unlocked p sched s a :
  broadcast_async range_order p sched s = Some a → mu s = unlocked →
  ∃ cs, calls (machine a) = calls s ++ cs
        ∧ Forall (λ c, mu_at_call c = unlocked) cs.
Proof.
  unfold broadcast_async. intros Hrun Hmu.
  destruct (run_calls_unlocked _ _ _ _ Hrun) as (cs & Hcs & Hall).
  - rewrite async_start_eq by done. simpl. by rewrite Hmu.
  - exists cs. split; [|done]. rewrite Hcs. by rewrite async_start_eq.
Qed.

End WithOrder.
End Concurrent.

(** ** The claims about the two broadcasts *)



Lemma range_order_empty {Ctx W : Type}
    (range_order : nat → gmap string (Notifier.t Ctx W) → list (string * Notifier.t Ctx W))
    (range_order_enumerates : ∀ k ns, range_order k ns ≡ₚ map_to_list ns) k :
  range_order k ∅ = [].
Proof.
  apply Permutation_nil_r. rewrite range_order_enumerates.
  by rewrite map_to_list_empty.
Qed.

(** C10. On an empty registry [Broadcast] and [BroadcastWithOptions]
    return no error and call no provider; a concurrent broadcast starts no
    goroutine, its stream never holds a result, and after the function has
    returned and the closer has run the stream is closed and drained with
    nothing received. *)
Theorem C10_empty_registry {Ctx W : Type}
    (range_order : nat → gmap string (Notifier.t Ctx W) → list (string * Notifier.t Ctx W))
    (range_order_enumerates : ∀ k ns, range_order k ns ≡ₚ map_to_list ns)
    (s : @Machine Ctx W) (ctx : Ctx) (message : string) (msg : Message) :
  notifiers s = ∅ →
  (Broadcast range_order ctx message s).1 = []
  ∧ calls (Broadcast range_order ctx message s).2 = calls s
  ∧ (BroadcastWithOptions range_order ctx msg s).1 = []
  ∧ calls (BroadcastWithOptions range_order ctx msg s).2 = calls s
  ∧ (∀ sched a,
       BroadcastAsync range_order ctx message sched s = Some a
       ∨ BroadcastAsyncWithOptions range_order ctx msg sched s = Some a →
       units a = [] ∧ resultChan a = [] ∧ received a = [])
  ∧ (∃ a, BroadcastAsync range_order ctx message [AReturn; AClose] s = Some a
          ∧ drained a ∧ received a = [])
  ∧ (∃ a, BroadcastAsyncWithOptions range_order ctx msg [AReturn; AClose] s = Some a
          ∧ drained a ∧ received a = []).
Proof.
  intros Hempty.
  assert (∀ k, range_order k (notifiers s) = []) as Hnil.
  { intros k. rewrite Hempty. by apply range_order_empty. }
  unfold Broadcast, BroadcastWithOptions. rewrite !broadcast_eq. simpl.
  rewrite !Hnil. simpl. rewrite app_nil_r.
  split; [done|]. split; [done|]. split; [done|]. split; [done|]. split.
  - intros sched a Hrun.
    assert (∃ p, run p sched (async_start range_order s).1 = Some a) as [p Hp].
    { destruct Hrun as [Hrun|Hrun]; eexists; exact Hrun. }
    clear Hrun. rename Hp into Hrun.
    pose proof (async_inv_start range_order range_order_enumerates s) as Hstart.
    pose proof (run_inv _ _ _ _ _ Hstart Hrun) as Hinv.
    pose proof (results_bounded _ _ Hinv) as Hbound.
    destruct Hinv as [Hunits _ _ _ _ _]. rewrite Hnil in Hunits, Hbound.
    apply app_eq_nil in Hunits as [Hunits _]. apply fmap_nil_inv in Hunits.
    simpl in Hbound. rewrite length_app in Hbound.
    destruct (received a), (resultChan a); simpl in Hbound; try lia. done.
  - unfold BroadcastAsync, BroadcastAsyncWithOptions, broadcast_async.
    rewrite async_start_eq by done. rewrite Hnil.
    split; eexists; (split; [reflexivity|]); by split.
Qed.

Lemma C10_witness :
  (∀ k ns, Scenario.order k ns ≡ₚ map_to_list ns)
  ∧ notifiers Scenario.empty = ∅
  ∧ (Broadcast Scenario.order tt "hi" Scenario.empty).1 = []
  ∧ ∃ a, BroadcastAsync Scenario.order tt "hi" [AReturn; AClose] Scenario.empty = Some a
         ∧ drained a ∧ received a = [].
Proof.
  split; [intros; reflexivity|]. split; [reflexivity|].
  pose proof (C10_empty_registry Scenario.order (λ _ _, reflexivity _)
                Scenario.empty tt "hi" Scenario.hello eq_refl)
    as (Hsync & _ & _ & _ & _ & Hasync & _).
  split; [exact Hsync|exact Hasync].
Defined.





(** ** The frame of the registry *)

(** C9. [Get], [List], [Send], [SendWithOptions], [Broadcast],
    [BroadcastWithOptions] and the moves of a concurrent broadcast leave
    the registry as it was: the same identities, mapped to the same
    providers, whatever the providers return. *)
Theorem C9_only_register_and_unregister_mutate {Ctx W : Type}
    (range_order : nat → gmap string (Notifier.t Ctx W) → list (string * Notifier.t Ctx W))
    (range_order_enumerates : ∀ k ns, range_order k ns ≡ₚ map_to_list ns)
    (s : @Machine Ctx W) (ctx : Ctx) (name message : string) (msg : Message)
    (sched : list (@Action Ctx W)) (a : @Async Ctx W) :
  notifiers (Get name s).2 = notifiers s
  ∧ notifiers (List range_order s).2 = notifiers s
  ∧ notifiers (Send ctx name message s).2 = notifiers s
  ∧ notifiers (SendWithOptions ctx name msg s).2 = notifiers s
  ∧ notifiers (Broadcast range_order ctx message s).2 = notifiers s
  ∧ notifiers (BroadcastWithOptions range_order ctx msg s).2 = notifiers s
  ∧ (own_moves sched = sched →
       BroadcastAsync range_order ctx message sched s = Some a →
       notifiers (machine a) = notifiers s)
  ∧ (own_moves sched = sched →
       BroadcastAsyncWithOptions range_order ctx msg sched s = Some a →
       notifiers (machine a) = notifiers s).
Proof.
  split; [by rewrite Get_eq|]. split; [by rewrite List_eq|].
  split; [apply send_to_spec|]. split; [apply send_to_spec|].
  unfold Broadcast, BroadcastWithOptions. rewrite !broadcast_eq.
  split; [done|]. split; [done|].
  split; intros Hown Hrun; by eapply broadcast_async_frame.
Qed.

Lemma C9_witness :
  (∀ k ns, Scenario.order k ns ≡ₚ map_to_list ns)
  ∧ own_moves Scenario.interleaving = Scenario.interleaving
  ∧ ∃ a, BroadcastAsync Scenario.order tt "hi" Scenario.interleaving Scenario.both = Some a
         ∧ notifiers (machine a) = notifiers Scenario.both
         ∧ notifiers (Broadcast Scenario.order tt "hi" Scenario.both).2
           = notifiers Scenario.both.
Proof.
  split; [intros; reflexivity|]. split; [reflexivity|].
  eexists. split; [vm_compute; reflexivity|].
  pose proof (C9_only_register_and_unregister_mutate Scenario.order
                (λ _ _, reflexivity _) Scenario.both tt "a" "hi" Scenario.hello
                Scenario.interleaving)
    as Hframe.
  split.
  - refine (proj1 (proj2 (proj2 (proj2 (proj2 (proj2 (proj2 (Hframe _))))))) _ _);
      [reflexivity|vm_compute; reflexivity].
  - exact (proj1 (proj2 (proj2 (proj2 (proj2 (Hframe Scenario.empty_async)))))).
Defined.

(** ** Provider calls and the registry lock *)

Lemma logged_under {Ctx W : Type} (p : Payload Ctx) (lk : RWMutex)
    (l : list (string * Notifier.t Ctx W)) (outs : list (option error)) :
  Forall (λ c, mu_at_call c = lk) (logged p lk l outs).
Proof.
  revert outs. induction l as [|e l IH]; intros [|o outs]; unfold logged; simpl;
    try by constructor.
  constructor; [done|]. apply IH.
Qed.

Lemma length_logged {Ctx W : Type} (p : Payload Ctx) (lk : RWMutex)
    (l : list (string * Notifier.t Ctx W)) (outs : list (option error)) :
  length l = length outs → length (logged p lk l outs) = length l.
Proof.
  intros Hlen. rewrite <- (length_fmap callee), callee_logged by done.
  by rewrite length_fmap.
Qed.

Lemma send_to_unlocked {Ctx W : Type} (s : @Machine Ctx W) (name : string)
    (p : Payload Ctx) :
  mu s = unlocked → ∃ cs, calls_made_under unlocked s (send_to name p s).2 cs.
Proof.
  intros Hmu. destruct (send_to_spec s name p) as [_ Hspec].
  destruct (notifiers s !! name) as [nt|].
  - destruct Hspec as (_ & _ & Hcalls). eexists. split; [exact Hcalls|].
    by repeat constructor.
  - destruct Hspec as (_ & Hcalls & _). exists []. split; [|by constructor].
    by rewrite app_nil_r.
Qed.

Lemma broadcast_read_locked {Ctx W : Type}
    (range_order : nat → gmap string (Notifier.t Ctx W) → list (string * Notifier.t Ctx W))
    (range_order_enumerates : ∀ k ns, range_order k ns ≡ₚ map_to_list ns)
    (s : @Machine Ctx W) (p : Payload Ctx) :
  mu s = unlocked →
  ∃ cs, calls_made_under read_locked s (broadcast range_order p s).2 cs
        ∧ length cs = size (notifiers s).
Proof.
  intros Hmu. rewrite broadcast_eq. simpl. rewrite Hmu. simpl.
  eexists. split; [split; [reflexivity|apply logged_under]|].
  rewrite length_logged by (by rewrite length_outcomes_of).
  by rewrite range_order_enumerates, length_map_to_list.
Qed.

(** C6, as the code has it.  From a state in which the registry lock is
    free: the provider call of [Send] and of [SendWithOptions], and every
    provider call of the goroutines of a concurrent broadcast, is made with
    the lock free; but [Broadcast] and [BroadcastWithOptions] make every one
    of their calls, one per registered provider, while they hold the read
    lock. *)
Theorem C6_provider_calls_and_registry_lock {Ctx W : Type}
    (range_order : nat → gmap string (Notifier.t Ctx W) → list (string * Notifier.t Ctx W))
    (range_order_enumerates : ∀ k ns, range_order k ns ≡ₚ map_to_list ns)
    (s : @Machine Ctx W) (ctx : Ctx) (name message : string) (msg : Message) :
  mu s = unlocked →
  (∃ cs, calls_made_under unlocked s (Send ctx name message s).2 cs)
  ∧ (∃ cs, calls_made_under unlocked s (SendWithOptions ctx name msg s).2 cs)
  ∧ (∀ sched a, BroadcastAsync range_order ctx message sched s = Some a →
       ∃ cs, calls_made_under unlocked s (machine a) cs)
  ∧ (∀ sched a, BroadcastAsyncWithOptions range_order ctx msg sched s = Some a →
       ∃ cs, calls_made_under unlocked s (machine a) cs)
  ∧ (∃ cs, calls_made_under read_locked s (Broadcast range_order ctx message s).2 cs
           ∧ length cs = size (notifiers s))
  ∧ (∃ cs, calls_made_under read_locked s (BroadcastWithOptions range_order ctx msg s).2 cs
           ∧ length cs = size (notifiers s)).
Proof.
  intros Hmu.
  split; [by apply send_to_unlocked|]. split; [by apply send_to_unlocked|].
  split; [intros sched a Hrun; by eapply broadcast_async_unlocked|].
  split; [intros sched a Hrun; by eapply broadcast_async_unlocked|].
  split; by apply broadcast_read_locked.
Qed.

Lemma C6_witness :
  (∀ k ns, Scenario.order k ns ≡ₚ map_to_list ns)
  ∧ mu Scenario.both = unlocked
  ∧ mu_at_call <$> calls (Broadcast Scenario.order tt "hi" Scenario.both).2
    = [read_locked; read_locked]
  ∧ ∃ cs, calls_made_under read_locked Scenario.both
            (Broadcast Scenario.order tt "hi" Scenario.both).2 cs
          ∧ length cs = size (notifiers Scenario.both).
Proof.
  split; [intros; reflexivity|]. split; [reflexivity|].
  split; [vm_compute; reflexivity|].
  exact (proj1 (proj2 (proj2 (proj2 (proj2
    (C6_provider_calls_and_registry_lock Scenario.order (λ _ _, reflexivity _)
       Scenario.both tt "a" "hi" Scenario.hello eq_refl)))))).
Defined.

(** ** The providers *)

(** C8. With an empty body text the rich send of the Slack notifier and of
    the Telegram notifier fails with a [NotificationError] of the provider,
    without a cause and without touching the world: no request is sent.
    Telegram's message is "message text is required"; so is Slack's when
    the notifier has a client, and without one Slack fails earlier, for the
    missing client. *)
Theorem C8_empty_text_rejected {Ctx W Request : Type}
    (Marshal : gmap string any → error + string)
    (NewRequestWithContext : Ctx → string → string → string → error + Request)
    (Unmarshal : string → error + (bool * string))
    (sl : @Slack.SlackNotifier Ctx W)
    (tg : @Telegram.TelegramNotifier W Request)
    (ctx : Ctx) (msg : Message) (w : W) :
  Text msg = "" →
  (∃ reason, Slack.SendWithOptions sl ctx msg w
             = (Some (NotificationError "slack" reason None), w))
  ∧ (Slack.client sl ≠ None →
       Slack.SendWithOptions sl ctx msg w
       = (Some (NotificationError "slack" "message text is required" None), w))
  ∧ Telegram.SendWithOptions Request Marshal NewRequestWithContext Unmarshal tg ctx msg w
    = (Some (NotificationError "telegram" "message text is required" None), w)
  ∧ Notifier.SendWithOptions (Slack.as_Notifier sl) ctx msg w
    = Slack.SendWithOptions sl ctx msg w
  ∧ Notifier.SendWithOptions
      (Telegram.as_Notifier Request Marshal NewRequestWithContext Unmarshal tg) ctx msg w
    = Telegram.SendWithOptions Request Marshal NewRequestWithContext Unmarshal tg ctx msg w.
Proof.
  intros Hempty. split; [|split; [|split; [|by split]]].
  - unfold Slack.SendWithOptions. destruct (Slack.client sl).
    + rewrite decide_True by done. by eexists.
    + by eexists.
  - intros Hclient. unfold Slack.SendWithOptions.
    destruct (Slack.client sl); [|done]. by rewrite decide_True by done.
  - unfold Telegram.SendWithOptions. by rewrite decide_True by done.
Qed.

Lemma C8_witness :
  Text Scenario.blank = ""
  ∧ Slack.SendWithOptions Scenario.slack tt Scenario.blank tt
    = (Some (NotificationError "slack" "message text is required" None), tt)
  ∧ Telegram.SendWithOptions string Scenario.Marshal Scenario.NewRequestWithContext
      Scenario.Unmarshal Scenario.telegram tt Scenario.blank tt
    = (Some (NotificationError "telegram" "message text is required" None), tt).
Proof.
  split; [reflexivity|].
  pose proof (C8_empty_text_rejected Scenario.Marshal Scenario.NewRequestWithContext
                Scenario.Unmarshal Scenario.slack Scenario.telegram tt Scenario.blank tt
                eq_refl) as (_ & Hslack & Htelegram & _).
  split; [apply Hslack; discriminate|exact Htelegram].
Defined.

(** * Further properties of the package *)

(** ** The registry *)

(** X1. Registering a provider under a free name succeeds; [Get] of that
    name then returns this provider, every other name reads as before,
    and the registry has grown by one. *)
Theorem X1_register_then_get {Ctx W : Type} (s : @Machine Ctx W) (nt : Notifier.t Ctx W) :
  notifiers s !! Notifier.Name nt = None →
  let s' := (Register (Some nt) s).2 in
  (Register (Some nt) s).1 = None
  ∧ (Get (Notifier.Name nt) s').1 = Some nt
  ∧ (∀ name, name ≠ Notifier.Name nt → (Get name s').1 = (Get name s).1)
  ∧ size (notifiers s') = S (size (notifiers s)).
Proof.
  intros Hfresh s'. subst s'. rewrite Register_fresh by done.
  split; [done|]. split; [|split].
  - rewrite Get_eq. apply lookup_insert_eq.
  - intros name Hne. rewrite !Get_eq. simpl. by rewrite lookup_insert_ne.
  - by apply map_size_insert_None.
Qed.

Lemma X1_witness :
  notifiers Scenario.only_a !! Notifier.Name Scenario.b = None
  ∧ (Get "b" (Register (Some Scenario.b) Scenario.only_a).2).1 = Some Scenario.b
  ∧ size (notifiers (Register (Some Scenario.b) Scenario.only_a).2) = 2.
Proof.
  split; [reflexivity|].
  pose proof (X1_register_then_get Scenario.only_a Scenario.b eq_refl)
    as (_ & Hget & _ & Hsize).
  split; [exact Hget|exact Hsize].
Defined.

(** X2. [Register] returns nil exactly when its argument is not the nil
    interface value and the name the argument reports is free.  An
    interface value that holds a nil [*SlackNotifier] or a nil
    [*TelegramNotifier] is such an argument: it is registered exactly when
    "slack", or "telegram", is free.  Whenever [Register] returns an error
    the registry is the one it found. *)
Theorem X2_register_succeeds_iff {Ctx W Request : Type}
    (nil_dereference : W → option error * W)
    (Marshal : gmap string any → error + string)
    (NewRequestWithContext : Ctx → string → string → string → error + Request)
    (Unmarshal : string → error + (bool * string))
    (s : @Machine Ctx W) (notifier : option (Notifier.t Ctx W)) :
  ((Register notifier s).1 = None
   ↔ ∃ nt, notifier = Some nt ∧ notifiers s !! Notifier.Name nt = None)
  ∧ (is_Some (Register notifier s).1 → notifiers (Register notifier s).2 = notifiers s)
  ∧ ((Register (Some (Pointer.slack nil_dereference None)) s).1 = None
     ↔ notifiers s !! "slack" = None)
  ∧ ((Register (Some (Pointer.telegram nil_dereference Request Marshal
                        NewRequestWithContext Unmarshal None)) s).1 = None
     ↔ notifiers s !! "telegram" = None).
Proof.
  assert (∀ nt : Notifier.t Ctx W,
            (Register (Some nt) s).1 = None ↔ notifiers s !! Notifier.Name nt = None)
    as Hfree.
  { intros nt. destruct (notifiers s !! Notifier.Name nt) as [q|] eqn:Hq.
    - rewrite Register_duplicate by eauto. done.
    - rewrite Register_fresh by done. done. }
  split; [|split; [|split; apply Hfree]].
  - destruct notifier as [nt|].
    + rewrite Hfree. split; [intros Hq; by exists nt|].
      by intros (nt' & [= <-] & Hq).
    + rewrite Register_nil. simpl. split; [done|]. by intros (nt' & ? & _).
  - destruct notifier as [nt|]; [|by rewrite Register_nil].
    destruct (notifiers s !! Notifier.Name nt) as [q|] eqn:Hq.
    + by rewrite Register_duplicate by eauto.
    + rewrite Register_fresh by done. by intros [? ?].
Qed.

Lemma apply_op_keeps {Ctx W : Type} (op : @EnvOp Ctx W) (s : @Machine Ctx W) :
  keyed_by_name s → mu s = unlocked →
  keyed_by_name (apply_op op s)
  ∧ mu (apply_op op s) = unlocked
  ∧ world (apply_op op s) = world s
  ∧ calls (apply_op op s) = calls s
  ∧ iterations (apply_op op s) = iterations s.
Proof.
  intros Hkey Hmu. destruct op as [notifier|name]; unfold apply_op.
  - split; [by apply Register_keyed|]. destruct notifier as [nt|].
    + destruct (notifiers s !! Notifier.Name nt) eqn:Hl.
      * rewrite Register_duplicate by eauto. simpl. by rewrite Hmu.
      * rewrite Register_fresh by done. simpl. by rewrite Hmu.
    + by rewrite Register_nil.
  - split; [by apply Unregister_keyed|]. rewrite Unregister_eq. simpl. by rewrite Hmu.
Qed.

(** X3. Whatever registrations and removals a manager created by
    [NewManager] goes through, in whatever order and with whatever
    outcome, every provider in its registry is filed under its own name,
    the lock is free again, and no provider has been called: the world and
    the call log are untouched. *)
Theorem X3_registry_filed_by_name {Ctx W : Type} (w : W) (ops : list (@EnvOp Ctx W)) :
  let s := apply_ops ops (NewManager w) in
  keyed_by_name s ∧ mu s = unlocked ∧ world s = w ∧ calls s = [].
Proof.
  simpl.
  assert (∀ s0 : @Machine Ctx W, keyed_by_name s0 → mu s0 = unlocked →
            keyed_by_name (apply_ops ops s0) ∧ mu (apply_ops ops s0) = unlocked
            ∧ world (apply_ops ops s0) = world s0
            ∧ calls (apply_ops ops s0) = calls s0) as Hgen.
  { induction ops as [|op ops IH]; intros s0 Hkey Hmu; simpl; [done|].
    destruct (apply_op_keeps op s0 Hkey Hmu) as (Hkey' & Hmu' & Hw & Hc & _).
    destruct (IH _ Hkey' Hmu') as (? & ? & Hw' & Hc').
    rewrite Hw', Hc', Hw, Hc. done. }
  apply (Hgen (NewManager w)); [apply NewManager_keyed|done].
Qed.

(** X4. [List] returns every registered name exactly once: no name is
    repeated, there are as many names as entries, and a name is listed
    exactly when [Get] finds it. *)
Theorem X4_list_names_once {Ctx W : Type}
    (range_order : nat → gmap string (Notifier.t Ctx W) → list (string * Notifier.t Ctx W))
    (range_order_enumerates : ∀ k ns, range_order k ns ≡ₚ map_to_list ns)
    (s : @Machine Ctx W) :
  NoDup (List range_order s).1
  ∧ length (List range_order s).1 = size (notifiers s)
  ∧ ∀ name, name ∈ (List range_order s).1 ↔ is_Some (Get name s).1.
Proof.
  split; [|split].
  - rewrite List_keys by done. apply NoDup_fst_map_to_list.
  - rewrite List_keys by done. by rewrite length_fmap, length_map_to_list.
  - intros name. rewrite elem_of_List by done. by rewrite Get_eq.
Qed.

Lemma X4_witness :
  (∀ k ns, Scenario.order k ns ≡ₚ map_to_list ns)
  ∧ NoDup (List Scenario.order Scenario.both).1
  ∧ length (List Scenario.order Scenario.both).1 = size (notifiers Scenario.both).
Proof.
  split; [intros; reflexivity|].
  pose proof (X4_list_names_once Scenario.order (λ _ _, reflexivity _) Scenario.both)
    as (Hnodup & Hlen & _).
  split; [exact Hnodup|exact Hlen].
Defined.

(** X5. [Unregister] of a registered name removes that entry and no
    other: the registry shrinks by one, every other name reads as before,
    and a [Send] to the removed name now fails with the not-found error
    without calling any provider. *)
Theorem X5_unregister_removes_one {Ctx W : Type}
    (s : @Machine Ctx W) (name : string) (nt : Notifier.t Ctx W)
    (ctx : Ctx) (text : string) :
  notifiers s !! name = Some nt →
  let s' := (Unregister name s).2 in
  S (size (notifiers s')) = size (notifiers s)
  ∧ (∀ other, other ≠ name → (Get other s').1 = (Get other s).1)
  ∧ (Send ctx name text s').1 = Some (ProviderNotFoundError name)
  ∧ calls (Send ctx name text s').2 = calls s
  ∧ world (Send ctx name text s').2 = world s.
Proof.
  intros Hnt s'. subst s'. rewrite Unregister_eq.
  split; [|split].
  - simpl. rewrite <- (insert_delete_id (notifiers s) name nt) at 2 by done.
    rewrite map_size_insert_None by apply lookup_delete_eq. done.
  - intros other Hne. rewrite !Get_eq. simpl. by rewrite lookup_delete_ne.
  - unfold Send. rewrite send_to_absent by apply lookup_delete_eq.
    rewrite Get_eq. done.
Qed.

Lemma X5_witness :
  notifiers Scenario.both !! "a" = Some Scenario.a
  ∧ S (size (notifiers (Unregister "a" Scenario.both).2)) = size (notifiers Scenario.both)
  ∧ (Send tt "a" "hi" (Unregister "a" Scenario.both).2).1
    = Some (ProviderNotFoundError "a").
Proof.
  split; [reflexivity|].
  pose proof (X5_unregister_removes_one Scenario.both "a" Scenario.a tt "hi" eq_refl)
    as (Hsize & _ & Hsend & _).
  split; [exact Hsize|exact Hsend].
Defined.

(** ** The lock, and the two ways to reach every provider *)

Lemma run_mu_unlocked {Ctx W : Type} (p : Payload Ctx) (sched : list (@Action Ctx W))
    (a a' : @Async Ctx W) :
  run p sched a = Some a' → mu (machine a) = unlocked → mu (machine a') = unlocked.
Proof.
  revert a. induction sched as [|act sched IH]; intros a Hrun Hmu; simpl in Hrun.
  - by injection Hrun as <-.
  - destruct (exec p act a) as [a1|] eqn:Hexec; [|done].
    destruct (exec_calls_unlocked _ _ _ _ Hexec Hmu) as [Hmu1 _]. by apply (IH a1).
Qed.

(** X6. No operation of the manager returns with the registry lock held:
    started with the lock free, [Register] (on success and on either
    error), [Unregister], [Get], [List], [Send], [SendWithOptions],
    [Broadcast] and [BroadcastWithOptions] leave it free, and so does a
    concurrent broadcast in every state it reaches. *)
Theorem X6_lock_released {Ctx W : Type}
    (range_order : nat → gmap string (Notifier.t Ctx W) → list (string * Notifier.t Ctx W))
    (range_order_enumerates : ∀ k ns, range_order k ns ≡ₚ map_to_list ns)
    (s : @Machine Ctx W) (notifier : option (Notifier.t Ctx W))
    (name : string) (p : Payload Ctx) :
  mu s = unlocked →
  mu (Register notifier s).2 = unlocked
  ∧ mu (Unregister name s).2 = unlocked
  ∧ mu (Get name s).2 = unlocked
  ∧ mu (List range_order s).2 = unlocked
  ∧ mu (send_to name p s).2 = unlocked
  ∧ mu (broadcast range_order p s).2 = unlocked
  ∧ ∀ sched a, broadcast_async range_order p sched s = Some a →
               mu (machine a) = unlocked.
Proof.
  intros Hmu. split; [|split; [|split; [|split; [|split; [|split]]]]].
  - destruct notifier as [nt|]; [|by rewrite Register_nil].
    destruct (notifiers s !! Notifier.Name nt) eqn:Hl.
    + rewrite Register_duplicate by eauto. simpl. by rewrite Hmu.
    + rewrite Register_fresh by done. simpl. by rewrite Hmu.
  - rewrite Unregister_eq. simpl. by rewrite Hmu.
  - rewrite Get_eq. simpl. by rewrite Hmu.
  - rewrite List_eq. simpl. by rewrite Hmu.
  - destruct (notifiers s !! name) as [nt|] eqn:Hnt.
    + rewrite (send_to_present name nt) by done. rewrite invoke_eq, Get_eq. simpl.
      by rewrite Hmu.
    + rewrite send_to_absent by done. rewrite Get_eq. simpl. by rewrite Hmu.
  - rewrite broadcast_eq. simpl. by rewrite Hmu.
  - intros sched a Hrun. unfold broadcast_async in Hrun.
    apply (run_mu_unlocked _ _ _ _ Hrun). rewrite async_start_eq by done. simpl.
    by rewrite Hmu.
Qed.

Lemma X6_witness :
  (∀ k ns, Scenario.order k ns ≡ₚ map_to_list ns)
  ∧ mu Scenario.both = unlocked
  ∧ mu (Broadcast Scenario.order tt "hi" Scenario.both).2 = unlocked
  ∧ mu (Register (Some Scenario.a') Scenario.both).2 = unlocked.
Proof.
  split; [intros; reflexivity|]. split; [reflexivity|].
  pose proof (X6_lock_released Scenario.order (λ _ _, reflexivity _) Scenario.both
                (Some Scenario.a') "a" (SimpleText tt "hi") eq_refl)
    as (Hreg & _ & _ & _ & _ & Hbc & _).
  split; [exact Hbc|exact Hreg].
Defined.

Lemma outcome_logged {Ctx W : Type} (p : Payload Ctx) (lk : RWMutex)
    (l : list (string * Notifier.t Ctx W)) (outs : list (option error)) :
  length l = length outs → outcome <$> logged p lk l outs = outs.
Proof.
  revert outs. induction l as [|e l IH]; intros [|o outs] Hlen;
    simpl in *; try done.
  injection Hlen as Hlen. unfold logged in *. simpl. by rewrite IH.
Qed.

Lemma unwrap_failures {Ctx W : Type} (l : list (string * Notifier.t Ctx W))
    (outs : list (option error)) :
  length l = length outs → Unwrap <$> failures l outs = Some <$> omap id outs.
Proof.
  revert outs. induction l as [|e l IH]; intros [|o outs] Hlen;
    simpl in *; try done.
  injection Hlen as Hlen. specialize (IH outs Hlen). unfold failures in *.
  destruct o as [err|]; simpl; [f_equal|]; exact IH.
Qed.

Lemma failures_shape {Ctx W : Type} (l : list (string * Notifier.t Ctx W))
    (outs : list (option error)) :
  Forall (λ e, ∃ name inner,
            e = wrapError (name +:+ ": " +:+ Error inner) inner ∧ name ∈ l.*1)
         (failures l outs).
Proof.
  revert outs. induction l as [|[name nt] l IH]; intros [|o outs];
    unfold failures; simpl; try by constructor.
  assert (Forall (λ e, ∃ name0 inner,
            e = wrapError (name0 +:+ ": " +:+ Error inner) inner
            ∧ name0 ∈ name :: l.*1) (failures l outs)) as Hrest.
  { eapply Forall_impl; [apply IH|]. intros e (name0 & inner & -> & Hin).
    exists name0, inner. split; [done|]. by right. }
  destruct o as [err|]; simpl; [|exact Hrest].
  constructor; [|exact Hrest]. exists name, err. split; [done|]. by left.
Qed.

(** X7. Every error a synchronous broadcast returns wraps the error of a
    provider: its text is the registry key, a colon and the text of the
    provider's error, the key is a registered name, and [Unwrap] gives the
    provider's error back.  Unwrapped, the returned errors are exactly the
    errors of the failed calls, in the order of the calls. *)
Theorem X7_broadcast_errors_unwrap {Ctx W : Type}
    (range_order : nat → gmap string (Notifier.t Ctx W) → list (string * Notifier.t Ctx W))
    (range_order_enumerates : ∀ k ns, range_order k ns ≡ₚ map_to_list ns)
    (s : @Machine Ctx W) (p : Payload Ctx) :
  let r := broadcast range_order p s in
  let outs := outcome <$> drop (length (calls s)) (calls r.2) in
  Unwrap <$> r.1 = Some <$> omap id outs
  ∧ Forall (λ e, ∃ name inner,
              e = wrapError (name +:+ ": " +:+ Error inner) inner
              ∧ Unwrap e = Some inner
              ∧ is_Some (notifiers s !! name)) r.1.
Proof.
  simpl. rewrite broadcast_eq. simpl.
  set (l := range_order (iterations s) (notifiers s)).
  pose proof (length_outcomes_of p l (world s)) as Hlen. symmetry in Hlen.
  rewrite drop_app_length, outcome_logged by done. split.
  - by apply unwrap_failures.
  - eapply Forall_impl; [apply failures_shape|].
    intros e (name & inner & -> & Hin). exists name, inner. split; [done|].
    split; [done|]. unfold l in Hin. rewrite range_order_enumerates in Hin.
    apply list_elem_of_fmap in Hin as [[k v] [-> Hkv]].
    apply elem_of_map_to_list in Hkv. by exists v.
Qed.

Lemma X7_witness :
  (∀ k ns, Scenario.order k ns ≡ₚ map_to_list ns)
  ∧ Unwrap <$> (Broadcast Scenario.order tt "hi" Scenario.both).1
    = [Some (NotificationError "b" "mock error" None)]
  ∧ Unwrap <$> (broadcast Scenario.order (SimpleText tt "hi") Scenario.both).1
    = Some <$> omap id
        (outcome <$> drop (length (calls Scenario.both))
           (calls (broadcast Scenario.order (SimpleText tt "hi") Scenario.both).2)).
Proof.
  split; [intros; reflexivity|]. split; [vm_compute; reflexivity|].
  exact (proj1 (X7_broadcast_errors_unwrap Scenario.order (λ _ _, reflexivity _)
                  Scenario.both (SimpleText tt "hi"))).
Defined.




(** ** The log of a concurrent broadcast *)

Section ConcurrentLog.
Context {Ctx W : Type}.
Implicit Types (s : @Machine Ctx W) (p : Payload Ctx) (a : @Async Ctx W).
Implicit Types (g : @Goroutine Ctx W) (us : list (@Goroutine Ctx W)).
Implicit Types (l : list (string * Notifier.t Ctx W)) (cs : list (@Call Ctx W)).

Lemma backed_more l cs cs' (r : NotificationResult) :
  backed l cs r → backed l (cs ++ cs') r.
Proof.
  intros [Hflag (c & Hc & Hin & Hout)]. split; [done|].
  exists c. split; [|done]. apply elem_of_app. by left.
Qed.

Lemma omap_called_cons g us :
  omap called (g :: us)
  = match called g with Some x => x :: omap called us | None => omap called us end.
Proof. reflexivity. Qed.

Lemma all_finished us :
  sum_list_with alive us = 0 → Forall (λ g, phase g = Finished) us.
Proof.
  induction us as [|g us IH]; simpl; [by constructor|].
  unfold alive at 1. destruct (phase g) eqn:Hph; intros Hsum; try lia.
  constructor; [done|]. by apply IH.
Qed.

Lemma all_finished_called us :
  Forall (λ g, phase g = Finished) us → omap called us = nt <$> us.
Proof.
  induction 1 as [|g us Hg _ IH]; [done|].
  rewrite omap_called_cons, fmap_cons. unfold called at 1. rewrite Hg. by rewrite IH.
Qed.

Lemma length_called us : length (omap called us) ≤ length us.
Proof.
  induction us as [|g us IH]; [done|].
  rewrite omap_called_cons. destruct (called g); simpl; lia.
Qed.

Lemma exec_async_log p l0 calls0 act a a' :
  async_inv l0 a → async_log p l0 calls0 a → exec p act a = Some a' →
  async_log p l0 calls0 a'.
Proof.
  intros [Hunits _ _ _ _ _] (cs & Hcalls & Hcallee & Hpay & Hback & Hsent) Hexec.
  destruct act as [| |i|i|i| | |[notifier|name]]; simpl in Hexec.
  - (* spawn *)
    destruct (spawning a) as [|[name notifier] rest]; [done|].
    destruct (returned a); [done|]. injection Hexec as <-.
    exists cs. simpl. split; [done|]. split.
    { rewrite omap_app. simpl. by rewrite app_nil_r. }
    split; [done|]. split; [done|].
    apply Forall_app. split; [done|]. constructor; [|constructor].
    intros e He. simpl in He. discriminate.
  - (* return *)
    destruct (spawning a); [|done].
    destruct (returned a); [done|]. injection Hexec as <-. by exists cs.
  - (* send *)
    destruct (units a !! i) as [g|] eqn:Hg; [|done].
    destruct (phase g) eqn:Hph; try done.
    rewrite invoke_eq in Hexec. injection Hexec as <-.
    destruct (units_split _ _ _ Hg) as (us1 & us2 & Hus & Hins).
    set (c := {| callee := nt g; payload := p; mu_at_call := mu (machine a);
                 outcome := (dispatch (nt g) p (world (machine a))).1 |}).
    exists (cs ++ [c]). simpl. rewrite Hins.
    split; [by rewrite Hcalls, app_assoc|]. split.
    { rewrite fmap_app, Hcallee, Hus, !omap_app, !omap_called_cons.
      unfold called at 2 4. simpl. rewrite Hph. simpl.
      rewrite <- app_assoc. apply Permutation_app_head.
      symmetry. apply Permutation_cons_append. }
    split; [apply Forall_app; split; [done|by repeat constructor]|].
    split; [eapply Forall_impl; [exact Hback|]; intros r; apply backed_more|].
    rewrite Hus in Hsent. apply Forall_app in Hsent as [Hs1 Hs2].
    apply Forall_cons in Hs2 as [_ Hs2].
    assert (∀ us, Forall (λ g0, ∀ e, phase g0 = Sent e →
              ∃ c0, c0 ∈ cs ∧ callee c0 = nt g0 ∧ outcome c0 = e) us →
            Forall (λ g0, ∀ e, phase g0 = Sent e →
              ∃ c0, c0 ∈ cs ++ [c] ∧ callee c0 = nt g0 ∧ outcome c0 = e) us) as Hmore.
    { intros us Hus'. eapply Forall_impl; [exact Hus'|].
      intros g0 Hg0 e He. destruct (Hg0 e He) as (c0 & ? & ? & ?).
      exists c0. split; [|done]. apply elem_of_app. by left. }
    apply Forall_app. split; [by apply Hmore|].
    constructor; [|by apply Hmore].
    intros e He. simpl in He. injection He as <-.
    exists c. split; [|done]. apply elem_of_app. right. by apply list_elem_of_singleton.
  - (* deliver *)
    destruct (units a !! i) as [g|] eqn:Hg; [|done].
    destruct (phase g) as [ |err| | ] eqn:Hph; try done.
    destruct (closed a); [done|].
    case_decide; [|done]. injection Hexec as <-.
    destruct (units_split _ _ _ Hg) as (us1 & us2 & Hus & Hins).
    exists cs. simpl. rewrite Hins. split; [done|]. split.
    { rewrite Hcallee, Hus, !omap_app, !omap_called_cons.
      unfold called at 2 4. simpl. by rewrite Hph. }
    split; [done|].
    rewrite Hus in Hsent. apply Forall_app in Hsent as [Hs1 Hs2].
    apply Forall_cons in Hs2 as [Hsg Hs2]. split.
    + rewrite app_assoc. apply Forall_app. split; [done|].
      constructor; [|constructor].
      destruct (Hsg err Hph) as (c & Hc & Hcal & Hout).
      split; [by destruct err|]. exists c. split; [done|]. split; [|done].
      simpl. rewrite Hcal, <- Hunits, Hus. apply elem_of_app. left.
      apply list_elem_of_fmap. exists g. split; [done|].
      apply elem_of_app. right. by left.
    + apply Forall_app. split; [done|]. constructor; [|done].
      intros e He. simpl in He. discriminate.
  - (* done *)
    destruct (units a !! i) as [g|] eqn:Hg; [|done].
    destruct (phase g) eqn:Hph; try done.
    destruct (wg a); [done|]. injection Hexec as <-.
    destruct (units_split _ _ _ Hg) as (us1 & us2 & Hus & Hins).
    exists cs. simpl. rewrite Hins. split; [done|]. split.
    { rewrite Hcallee, Hus, !omap_app, !omap_called_cons.
      unfold called at 2 4. simpl. by rewrite Hph. }
    split; [done|]. split; [done|].
    rewrite Hus in Hsent. apply Forall_app in Hsent as [Hs1 Hs2].
    apply Forall_cons in Hs2 as [_ Hs2].
    apply Forall_app. split; [done|]. constructor; [|done].
    intros e He. simpl in He. discriminate.
  - (* close *)
    destruct (returned a); [|done]. destruct (wg a); [|done].
    destruct (closed a); [done|]. injection Hexec as <-. by exists cs.
  - (* receive *)
    destruct (returned a); [|done].
    destruct (resultChan a) as [|r rest] eqn:Hch; [done|]. injection Hexec as <-.
    exists cs. simpl. rewrite <- app_assoc. done.
  - (* a registration by another goroutine *)
    injection Hexec as <-. exists cs. simpl. split; [|done].
    rewrite <- Hcalls. destruct notifier as [nt'|]; [|by rewrite Register_nil].
    destruct (notifiers (machine a) !! Notifier.Name nt') eqn:Hl.
    + by rewrite Register_duplicate by eauto.
    + by rewrite Register_fresh by done.
  - (* a removal by another goroutine *)
    injection Hexec as <-. by exists cs.
Qed.

Lemma run_async_log p l0 calls0 sched a a' :
  async_inv l0 a → async_log p l0 calls0 a → run p sched a = Some a' →
  async_log p l0 calls0 a'.
Proof.
  revert a. induction sched as [|act sched IH]; intros a Hinv Hlog Hrun;
    simpl in Hrun.
  - by injection Hrun as <-.
  - destruct (exec p act a) as [a1|] eqn:Hexec; [|done].
    eapply (IH a1); [by eapply exec_inv|by eapply exec_async_log|done].
Qed.

End ConcurrentLog.

Lemma broadcast_async_log {Ctx W : Type}
    (range_order : nat → gmap string (Notifier.t Ctx W) → list (string * Notifier.t Ctx W))
    (range_order_enumerates : ∀ k ns, range_order k ns ≡ₚ map_to_list ns)
    (s : @Machine Ctx W) (p : Payload Ctx) (sched : list (@Action Ctx W))
    (a : @Async Ctx W) :
  broadcast_async range_order p sched s = Some a →
  async_inv (range_order (S (iterations s)) (notifiers s)) a
  ∧ async_log p (range_order (S (iterations s)) (notifiers s)) (calls s) a.
Proof.
  unfold broadcast_async. intros Hrun.
  pose proof (async_inv_start range_order range_order_enumerates s) as Hstart.
  split; [by eapply run_inv|].
  eapply run_async_log; [exact Hstart| |exact Hrun].
  rewrite async_start_eq by done. exists []. simpl. rewrite app_nil_r.
  by repeat split.
Qed.

(** X9. A concurrent broadcast calls no provider twice, and by the time the
    stream is closed it has called every provider of the registry it
    started from exactly once, with the payload of the broadcast, even if
    providers were registered or removed meanwhile. *)
Theorem X9_broadcast_async_calls_each_once {Ctx W : Type}
    (range_order : nat → gmap string (Notifier.t Ctx W) → list (string * Notifier.t Ctx W))
    (range_order_enumerates : ∀ k ns, range_order k ns ≡ₚ map_to_list ns)
    (s : @Machine Ctx W) (p : Payload Ctx) (sched : list (@Action Ctx W))
    (a : @Async Ctx W) :
  broadcast_async range_order p sched s = Some a →
  ∃ cs, calls (machine a) = calls s ++ cs
        ∧ Forall (λ c, payload c = p) cs
        ∧ length cs ≤ size (notifiers s)
        ∧ (closed a = true → callee <$> cs ≡ₚ (map_to_list (notifiers s)).*2).
Proof.
  intros Hrun.
  destruct (broadcast_async_log range_order range_order_enumerates s p sched a Hrun)
    as [[Hunits Hwg _ _ Hret Hclosed] (cs & Hcalls & Hcallee & Hpay & _ & _)].
  set (l0 := range_order (S (iterations s)) (notifiers s)) in *.
  assert (length l0 = size (notifiers s)) as Hlen.
  { unfold l0. by rewrite range_order_enumerates, length_map_to_list. }
  exists cs. split; [done|]. split; [done|]. split.
  - rewrite <- (length_fmap callee), Hcallee.
    etrans; [apply length_called|].
    rewrite <- Hlen, <- Hunits, length_app, length_fmap. lia.
  - intros Hc. destruct (Hclosed Hc) as [Hr Hzero]. specialize (Hret Hr).
    rewrite Hcallee, all_finished_called by (apply all_finished; lia).
    assert (nt <$> units a = l0.*2) as ->.
    { rewrite <- Hunits, Hret, app_nil_r, <- list_fmap_compose. done. }
    unfold l0. by rewrite range_order_enumerates.
Qed.

Lemma X9_witness :
  (∀ k ns, Scenario.order k ns ≡ₚ map_to_list ns)
  ∧ ∃ a, broadcast_async Scenario.order (SimpleText tt "hi") Scenario.interleaving
           Scenario.both = Some a
         ∧ closed a = true
         ∧ ∃ cs, calls (machine a) = calls Scenario.both ++ cs
                 ∧ Forall (λ c, payload c = SimpleText tt "hi") cs
                 ∧ length cs ≤ size (notifiers Scenario.both)
                 ∧ (closed a = true →
                    callee <$> cs ≡ₚ (map_to_list (notifiers Scenario.both)).*2).
Proof.
  split; [intros; reflexivity|].
  eexists. split; [vm_compute; reflexivity|]. split; [reflexivity|].
  apply (X9_broadcast_async_calls_each_once Scenario.order (λ _ _, reflexivity _)
           Scenario.both (SimpleText tt "hi") Scenario.interleaving).
  vm_compute. reflexivity.
Defined.

(** X10. Every result a concurrent broadcast puts on its stream reports a
    call that was made: its identity is a name of the registry the
    broadcast started from, its error is what a logged call to the provider
    under that name returned, and its success flag is set exactly when that
    error is nil. *)
Theorem X10_broadcast_async_results_report_calls {Ctx W : Type}
    (range_order : nat → gmap string (Notifier.t Ctx W) → list (string * Notifier.t Ctx W))
    (range_order_enumerates : ∀ k ns, range_order k ns ≡ₚ map_to_list ns)
    (s : @Machine Ctx W) (p : Payload Ctx) (sched : list (@Action Ctx W))
    (a : @Async Ctx W) :
  broadcast_async range_order p sched s = Some a →
  ∃ cs, calls (machine a) = calls s ++ cs
        ∧ Forall (λ r,
            (Success r = true ↔ ResError r = None)
            ∧ ∃ c, c ∈ cs
                   ∧ notifiers s !! Provider r = Some (callee c)
                   ∧ outcome c = ResError r
                   ∧ payload c = p)
          (received a ++ resultChan a).
Proof.
  intros Hrun.
  destruct (broadcast_async_log range_order range_order_enumerates s p sched a Hrun)
    as [_ (cs & Hcalls & _ & Hpay & Hback & _)].
  exists cs. split; [done|].
  eapply Forall_impl; [exact Hback|].
  intros r [Hflag (c & Hc & Hin & Hout)]. split.
  - rewrite Hflag. destruct (ResError r); split; congruence.
  - exists c. split; [done|]. split; [|split; [done|]].
    + rewrite range_order_enumerates in Hin. by apply elem_of_map_to_list in Hin.
    + rewrite Forall_forall in Hpay. by apply Hpay.
Qed.

Lemma X10_witness :
  (∀ k ns, Scenario.order k ns ≡ₚ map_to_list ns)
  ∧ ∃ a, broadcast_async Scenario.order (SimpleText tt "hi") Scenario.interleaving
           Scenario.both = Some a
         ∧ Success <$> received a = [false; true]
         ∧ ∃ cs, calls (machine a) = calls Scenario.both ++ cs
                 ∧ Forall (λ r,
                     (Success r = true ↔ ResError r = None)
                     ∧ ∃ c, c ∈ cs
                            ∧ notifiers Scenario.both !! Provider r = Some (callee c)
                            ∧ outcome c = ResError r
                            ∧ payload c = SimpleText tt "hi")
                   (received a ++ resultChan a).
Proof.
  split; [intros; reflexivity|].
  eexists. split; [vm_compute; reflexivity|]. split; [reflexivity|].
  apply (X10_broadcast_async_results_report_calls Scenario.order (λ _ _, reflexivity _)
           Scenario.both (SimpleText tt "hi") Scenario.interleaving).
  vm_compute. reflexivity.
Defined.

(** ** A caller that stops receiving *)

Section NoReceiver.
Context {Ctx W : Type}.
Implicit Types (p : Payload Ctx) (a : @Async Ctx W).

Lemma exec_remaining_to_close p act a a' :
  exec p act a = Some a' → is_env act = false → act ≠ ARecv →
  remaining_to_close a = S (remaining_to_close a').
Proof.
  intros Hexec Hown Hnr. unfold remaining_to_close.
  destruct act as [| |i|i|i| | |op]; simpl in Hexec; try done.
  - destruct (spawning a) as [|[name notifier] rest] eqn:Hsp; [done|].
    destruct (returned a) eqn:Hr; [done|]. injection Hexec as <-. simpl.
    rewrite sum_list_with_app. simpl. lia.
  - destruct (spawning a) eqn:Hsp; [|done].
    destruct (returned a) eqn:Hr; [done|]. injection Hexec as <-. simpl. lia.
  - destruct (units a !! i) as [g|] eqn:Hg; [|done].
    destruct (phase g) eqn:Hph; try done.
    destruct (invoke (nt g) p (machine a)) as [err s']. injection Hexec as <-.
    destruct (units_split _ _ _ Hg) as (us1 & us2 & Hus & Hins). simpl.
    rewrite Hins, Hus, !sum_list_with_app. simpl. rewrite Hph. simpl. lia.
  - destruct (units a !! i) as [g|] eqn:Hg; [|done].
    destruct (phase g) as [ |err| | ] eqn:Hph; try done.
    destruct (closed a) eqn:Hc; [done|].
    case_decide; [|done]. injection Hexec as <-.
    destruct (units_split _ _ _ Hg) as (us1 & us2 & Hus & Hins). simpl.
    rewrite Hins, Hus, Hc, !sum_list_with_app. simpl. rewrite Hph. simpl. lia.
  - destruct (units a !! i) as [g|] eqn:Hg; [|done].
    destruct (phase g) eqn:Hph; try done.
    destruct (wg a) as [|k] eqn:Hk; [done|]. injection Hexec as <-.
    destruct (units_split _ _ _ Hg) as (us1 & us2 & Hus & Hins). simpl.
    rewrite Hins, Hus, !sum_list_with_app. simpl. rewrite Hph. simpl. lia.
  - destruct (returned a) eqn:Hr; [|done].
    destruct (wg a) eqn:Hk; [|done].
    destruct (closed a) eqn:Hc; [done|]. injection Hexec as <-. simpl. lia.
Qed.

End NoReceiver.

Section NoReceiverProgress.
Context {Ctx W : Type}.
Implicit Types (p : Payload Ctx) (a : @Async Ctx W).

(** As long as the channel is open some goroutine of the broadcast can
    move, whether or not the caller receives: the buffer has room for every
    result. *)
Lemma progress_without_receiver p l0 a :
  async_inv l0 a → closed a = false →
  ∃ act a', act ≠ ARecv ∧ is_env act = false ∧ exec p act a = Some a'.
Proof.
  intros Hinv Hc. pose proof (results_bounded _ _ Hinv) as Hbound.
  destruct Hinv as [Hunits Hwg Hres Hcap Hret Hclosed].
  destruct (returned a) eqn:Hr.
  - specialize (Hret eq_refl).
    destruct (unfinished_or_all_finished (units a)) as [(i & g & Hg & Hph)|Hall].
    + destruct (units_split _ _ _ Hg) as (us1 & us2 & Hus & _).
      assert (alive g = 1) as Halive by (unfold alive; by destruct (phase g)).
      assert (wg a ≠ 0) as Hwg0.
      { rewrite Hwg, Hus, sum_list_with_app. simpl. lia. }
      destruct (phase g) as [ |err| | ] eqn:Hphase; [| | |done].
      * exists (ASend i). simpl. rewrite Hg, Hphase.
        destruct (invoke (nt g) p (machine a)). eauto.
      * exists (ADeliver i). simpl. rewrite Hg, Hphase, Hc.
        assert (length (resultChan a) < capacity a) as Hroom.
        { apply Permutation_length in Hres.
          rewrite length_fmap, length_app in Hres.
          rewrite Hus, omap_app in Hres. simpl in Hres.
          unfold reported at 2 in Hres. rewrite Hphase in Hres.
          rewrite length_app in Hres.
          pose proof (length_reported us1). pose proof (length_reported us2).
          rewrite Hcap, <- Hunits, Hus, length_app, length_fmap, length_app. simpl.
          unfold omap in *. lia. }
        rewrite decide_True by done. eauto.
      * exists (ADone i). simpl. rewrite Hg, Hphase.
        destruct (wg a); [done|]. eauto.
    + exists AClose. simpl. rewrite Hr, Hc. rewrite Hwg, Hall. eauto.
  - destruct (spawning a) as [|[name notifier] rest] eqn:Hsp.
    + exists AReturn. simpl. rewrite Hsp, Hr. eauto.
    + exists ASpawn. simpl. rewrite Hsp, Hr. eauto.
Qed.

Lemma exec_keeps_received p act a a' :
  exec p act a = Some a' → act ≠ ARecv → received a' = received a.
Proof.
  intros Hexec Hnr.
  destruct act as [| |i|i|i| | |[notifier|name]]; simpl in Hexec; try done.
  - destruct (spawning a) as [|[name notifier] rest]; [done|].
    destruct (returned a); [done|]. by injection Hexec as <-.
  - destruct (spawning a); [|done].
    destruct (returned a); [done|]. by injection Hexec as <-.
  - destruct (units a !! i) as [g|]; [|done].
    destruct (phase g); try done.
    destruct (invoke (nt g) p (machine a)) as [err s']. by injection Hexec as <-.
  - destruct (units a !! i) as [g|]; [|done].
    destruct (phase g); try done. destruct (closed a); [done|].
    case_decide; [|done]. by injection Hexec as <-.
  - destruct (units a !! i) as [g|]; [|done].
    destruct (phase g); try done. destruct (wg a); [done|].
    by injection Hexec as <-.
  - destruct (returned a); [|done]. destruct (wg a); [|done].
    destruct (closed a); [done|]. by injection Hexec as <-.
  - by injection Hexec as <-.
  - by injection Hexec as <-.
Qed.

Lemma close_without_receiver p l0 a :
  async_inv l0 a →
  ∃ rest a', run p rest a = Some a' ∧ never_receives rest
             ∧ own_moves rest = rest
             ∧ length rest = remaining_to_close a
             ∧ closed a' = true ∧ received a' = received a.
Proof.
  remember (remaining_to_close a) as k eqn:Hk. revert a Hk.
  induction k as [k IH] using lt_wf_ind. intros a Hk Hinv.
  destruct (closed a) eqn:Hc.
  - exists [], a. split; [done|]. split; [by constructor|]. split; [done|].
    split; [|done]. subst k. unfold remaining_to_close. rewrite Hc.
    destruct Hinv as [Hunits Hwg _ _ Hret Hclosed].
    destruct (Hclosed Hc) as [Hr Hzero]. rewrite Hr, (Hret Hr). simpl.
    rewrite Hwg in Hzero. apply all_finished in Hzero.
    clear -Hzero. induction Hzero as [|g us Hg _ IHus]; [done|].
    simpl in *. rewrite Hg. simpl. lia.
  - destruct (progress_without_receiver p _ _ Hinv Hc)
      as (act & a1 & Hnr & Hown & Hexec).
    pose proof (exec_remaining_to_close _ _ _ _ Hexec Hown Hnr) as Hrem.
    destruct (IH (remaining_to_close a1)) with (a := a1)
      as (rest & a' & Hrun & Hnever & Hownr & Hlen & Hclosed & Hrecv);
      [lia|done|by eapply exec_inv|].
    exists (act :: rest), a'. simpl. rewrite Hexec.
    split; [done|]. split; [by constructor|]. split.
    + unfold own_moves in *. rewrite filter_cons_True by done. by rewrite Hownr.
    + split; [lia|]. split; [done|].
      rewrite Hrecv. by eapply exec_keeps_received.
Qed.

End NoReceiverProgress.

(** X11. A concurrent broadcast needs no receiver to finish: from every
    state it reaches, its own goroutines alone, without one more receive by
    the caller, run on until the channel is closed, because the buffer
    holds one result per provider.  Then every goroutine has returned, one
    was started per provider, and the results not yet received wait in the
    buffer. *)
Theorem X11_broadcast_async_finishes_without_receiver {Ctx W : Type}
    (range_order : nat → gmap string (Notifier.t Ctx W) → list (string * Notifier.t Ctx W))
    (range_order_enumerates : ∀ k ns, range_order k ns ≡ₚ map_to_list ns)
    (s : @Machine Ctx W) (p : Payload Ctx) (sched : list (@Action Ctx W))
    (a : @Async Ctx W) :
  broadcast_async range_order p sched s = Some a →
  ∃ rest a',
    run p rest a = Some a'
    ∧ never_receives rest
    ∧ closed a' = true
    ∧ Forall (λ g, phase g = Finished) (units a')
    ∧ length (units a') = size (notifiers s)
    ∧ received a' = received a
    ∧ length (received a' ++ resultChan a') = size (notifiers s).
Proof.
  intros Hrun.
  destruct (broadcast_async_log range_order range_order_enumerates s p sched a Hrun)
    as [Hinv _].
  set (l0 := range_order (S (iterations s)) (notifiers s)) in *.
  destruct (close_without_receiver p l0 a Hinv)
    as (rest & a' & Hrest & Hnever & _ & _ & Hc & Hrecv).
  pose proof (run_inv _ _ _ _ _ Hinv Hrest) as Hinv'.
  pose proof (results_at_close _ _ Hinv' Hc) as Hres.
  destruct Hinv' as [Hunits Hwg _ _ Hret Hclosed].
  destruct (Hclosed Hc) as [Hr Hzero].
  assert (length l0 = size (notifiers s)) as Hlen.
  { unfold l0. by rewrite range_order_enumerates, length_map_to_list. }
  exists rest, a'. split; [done|]. split; [done|]. split; [done|].
  split; [apply all_finished; lia|]. split.
  - rewrite <- Hlen, <- Hunits, (Hret Hr), app_nil_r. by rewrite length_fmap.
  - split; [done|]. apply Permutation_length in Hres.
    rewrite !length_fmap in Hres. lia.
Qed.

Lemma X11_witness :
  (∀ k ns, Scenario.order k ns ≡ₚ map_to_list ns)
  ∧ ∃ a, broadcast_async Scenario.order (SimpleText tt "hi") [ASpawn; ASpawn; ASend 1]
           Scenario.both = Some a
         ∧ ∃ rest a',
             run (SimpleText tt "hi") rest a = Some a'
             ∧ never_receives rest
             ∧ closed a' = true
             ∧ Forall (λ g, phase g = Finished) (units a')
             ∧ length (units a') = size (notifiers Scenario.both)
             ∧ received a' = received a
             ∧ length (received a' ++ resultChan a') = size (notifiers Scenario.both).
Proof.
  split; [intros; reflexivity|].
  eexists. split; [vm_compute; reflexivity|].
  apply (X11_broadcast_async_finishes_without_receiver Scenario.order
           (λ _ _, reflexivity _) Scenario.both (SimpleText tt "hi")
           [ASpawn; ASpawn; ASend 1]).
  vm_compute. reflexivity.
Defined.

(** ** The Slack notifier *)

Section SlackProperties.
Context {Ctx W : Type}.
Implicit Types (s : @Slack.SlackNotifier Ctx W) (c : @Slack.Client Ctx W).
Implicit Types (msg : Message) (w : W).

(** What [SendWithOptions] makes of the answer of [PostMessageContext]. *)
Lemma Slack_SendWithOptions_eq s c ctx msg w :
  Slack.client s = Some c →
  Slack.SendWithOptions s ctx msg w =
    if decide (Text msg = "")
    then (Some (NotificationError "slack" "message text is required" None), w)
    else if decide (SlackRich.channel_of s msg = "")
    then (Some (NotificationError "slack" "channel is required" None), w)
    else
      let r := Slack.PostMessageContext c ctx (SlackRich.channel_of s msg)
                 (SlackRich.options_of s msg) w in
      (match r.1 with
       | Some err => Some (NotificationError "slack" "failed to send message" (Some err))
       | None => None
       end, r.2).
Proof.
  intros Hc. unfold Slack.SendWithOptions. rewrite Hc.
  destruct (decide (Text msg = "")); [done|].
  fold (SlackRich.channel_of s msg).
  destruct (decide (SlackRich.channel_of s msg = "")); [done|].
  fold (SlackRich.options_of s msg). simpl.
  by destruct (Slack.PostMessageContext c ctx _ _ w) as [[err|] w'].
Qed.

Lemma Slack_without_client s ctx msg w :
  Slack.client s = None →
  Slack.SendWithOptions s ctx msg w =
    (Some (NotificationError "slack"
       "slack client not initialized (webhook support not yet implemented for SendWithOptions)"
       None), w).
Proof. intros Hc. unfold Slack.SendWithOptions. by rewrite Hc. Qed.

End SlackProperties.

(** X12. [NewSlackNotifier] refuses a configuration exactly when it has
    neither a token nor a webhook URL.  The notifier it builds otherwise
    has a client exactly when there is a token, the one [slack.New] makes
    from it, and carries the channel, user name and icon of the
    configuration. *)
Theorem X12_new_slack_notifier {Ctx W : Type}
    (New : string → @Slack.Client Ctx W) (config : Slack.SlackConfig) :
  match Slack.NewSlackNotifier New config with
  | inl err =>
      Slack.Token config = "" ∧ Slack.WebhookURL config = ""
      ∧ err = NotificationError "slack" "either token or webhook URL is required" None
  | inr s =>
      (Slack.Token config ≠ "" ∨ Slack.WebhookURL config ≠ "")
      ∧ (Slack.Token config ≠ "" → Slack.client s = Some (New (Slack.Token config)))
      ∧ (Slack.Token config = "" → Slack.client s = None)
      ∧ Slack.defaultChannel s = Slack.DefaultChannel config
      ∧ Slack.username s = Slack.Username config
      ∧ Slack.iconEmoji s = Slack.IconEmoji config
  end.
Proof.
  unfold Slack.NewSlackNotifier.
  destruct (decide (Slack.Token config = "" ∧ Slack.WebhookURL config = ""))
    as [[Ht Hw]|Hnot]; [done|].
  simpl. split.
  - destruct (decide (Slack.Token config = "")) as [Ht|Ht]; [|by left].
    right. intros Hw. by apply Hnot.
  - split; [|split; [|done]].
    + intros Ht. by rewrite decide_True.
    + intros Ht. by rewrite decide_False by (by intros ?).
Qed.

(** X13. A configuration with a webhook URL and no token is accepted, but
    the notifier built from it can send nothing: [Send],
    [SendWithOptions], [SendRichMessage] and [SendFile] all fail with a
    client-not-initialized error of the provider and leave the world as it
    is. *)
Theorem X13_webhook_only_never_sends {Ctx W : Type}
    (New : string → @Slack.Client Ctx W)
    (UploadFileContext : @Slack.Client Ctx W → Ctx → SlackRich.FileUploadParameters
                         → W → option error * W)
    (config : Slack.SlackConfig) (ctx : Ctx) (msg : Message)
    (message channel filePath title comment : string) (blocks : list Slack.Block) (w : W) :
  Slack.Token config = "" → Slack.WebhookURL config ≠ "" →
  ∃ s reason,
    Slack.NewSlackNotifier New config = inr s
    ∧ Slack.SendWithOptions s ctx msg w = (Some (NotificationError "slack" reason None), w)
    ∧ Slack.Send s ctx message w = (Some (NotificationError "slack" reason None), w)
    ∧ SlackRich.SendRichMessage s ctx channel blocks w
      = (Some (NotificationError "slack" "slack client not initialized" None), w)
    ∧ SlackRich.SendFile UploadFileContext s ctx channel filePath title comment w
      = (Some (NotificationError "slack" "slack client not initialized" None), w).
Proof.
  intros Ht Hw. unfold Slack.NewSlackNotifier.
  rewrite decide_False by (by intros [_ ?]).
  rewrite decide_False by (by intros ?).
  eexists. eexists. split; [reflexivity|]. by repeat split.
Qed.

Lemma X13_witness :
  Slack.Token Providers.webhook_only = ""
  ∧ Slack.WebhookURL Providers.webhook_only ≠ ""
  ∧ ∃ s reason,
      Slack.NewSlackNotifier Providers.New Providers.webhook_only = inr s
      ∧ Slack.SendWithOptions s tt Providers.alert []
        = (Some (NotificationError "slack" reason None), [])
      ∧ Slack.Send s tt "hi" [] = (Some (NotificationError "slack" reason None), [])
      ∧ SlackRich.SendRichMessage s tt "#ops" [] []
        = (Some (NotificationError "slack" "slack client not initialized" None), [])
      ∧ SlackRich.SendFile Providers.upload s tt "#ops" "report.pdf" "Report" "" []
        = (Some (NotificationError "slack" "slack client not initialized" None), []).
Proof.
  split; [reflexivity|]. split; [discriminate|].
  apply (X13_webhook_only_never_sends Providers.New Providers.upload
           Providers.webhook_only tt Providers.alert "hi" "#ops" "report.pdf" "Report" ""
           [] []); [reflexivity|discriminate].
Defined.

(** X14. With a client and a body text, [SendWithOptions] posts to the
    channel of the message, or to the default channel when the message
    names none.  When both are empty it fails with "channel is required"
    and posts nothing.  Otherwise it calls [PostMessageContext] once; it
    returns nil when the call does, and else an error of the provider that
    wraps the error of the call; the world is the one the call leaves. *)
Theorem X14_slack_posts_to_resolved_channel {Ctx W : Type}
    (s : @Slack.SlackNotifier Ctx W) (c : @Slack.Client Ctx W)
    (ctx : Ctx) (msg : Message) (w : W) :
  Slack.client s = Some c → Text msg ≠ "" →
  (Channel msg ≠ "" → SlackRich.channel_of s msg = Channel msg)
  ∧ (Channel msg = "" → SlackRich.channel_of s msg = Slack.defaultChannel s)
  ∧ (SlackRich.channel_of s msg = "" →
       Slack.SendWithOptions s ctx msg w
       = (Some (NotificationError "slack" "channel is required" None), w))
  ∧ (SlackRich.channel_of s msg ≠ "" →
       let r := Slack.PostMessageContext c ctx (SlackRich.channel_of s msg)
                  (SlackRich.options_of s msg) w in
       (Slack.SendWithOptions s ctx msg w).2 = r.2
       ∧ ((Slack.SendWithOptions s ctx msg w).1 = None ↔ r.1 = None)
       ∧ ∀ err, r.1 = Some err →
           (Slack.SendWithOptions s ctx msg w).1
           = Some (NotificationError "slack" "failed to send message" (Some err))).
Proof.
  intros Hc Htext. rewrite (Slack_SendWithOptions_eq s c) by done.
  rewrite decide_False by done. unfold SlackRich.channel_of at 1 2.
  split; [by intros ?; rewrite decide_False|].
  split; [by intros ?; rewrite decide_True|]. split.
  - intros Hch. by rewrite decide_True.
  - intros Hch. rewrite decide_False by done. simpl.
    destruct (Slack.PostMessageContext c ctx _ _ w) as [[err|] w']; simpl.
    + split; [done|]. split; [by split|]. by intros ? [= <-].
    + split; [done|]. split; [by split|]. by intros ?.
Qed.

Lemma X14_witness :
  Slack.client Providers.bot = Some Providers.recorder
  ∧ Text Providers.alert ≠ ""
  ∧ SlackRich.channel_of Providers.bot Providers.alert = "#general"
  ∧ Slack.SendWithOptions Providers.bot tt Providers.alert []
    = (None, [("#general", SlackRich.options_of Providers.bot Providers.alert)]).
Proof.
  split; [reflexivity|]. split; [discriminate|].
  pose proof (X14_slack_posts_to_resolved_channel Providers.bot Providers.recorder tt
                Providers.alert [] eq_refl) as H.
  destruct H as (_ & Hdefault & _ & Hpost); [discriminate|].
  split; [exact (Hdefault eq_refl)|].
  destruct Hpost as (Hworld & Hnil & _); [discriminate|].
  apply injective_projections; [by apply Hnil|exact Hworld].
Defined.

Lemma options_of_eq {Ctx W : Type} (s : @Slack.SlackNotifier Ctx W) (msg : Message) :
  SlackRich.options_of s msg =
    let extras :=
      (if decide (Slack.username s ≠ "")
       then [Slack.MsgOptionUsername (Slack.username s)] else [])
      ++ (if decide (Slack.iconEmoji s ≠ "")
          then [Slack.MsgOptionIconEmoji (Slack.iconEmoji s)] else [])
      ++ (if decide (0 < length (Attachments msg))
          then [Slack.MsgOptionAttachments (Slack.convertAttachments (Attachments msg))]
          else []) in
    if decide (Title msg ≠ "")
    then extras ++ [Slack.MsgOptionBlocks [Slack.HeaderBlock "plain_text" (Title msg);
                                           Slack.SectionBlock "mrkdwn" (Text msg)]]
    else Slack.MsgOptionText (Text msg) false :: extras.
Proof.
  unfold SlackRich.options_of.
  by destruct (decide (Slack.username s ≠ "")), (decide (Slack.iconEmoji s ≠ "")),
    (decide (0 < length (Attachments msg))), (decide (Title msg ≠ "")).
Qed.

Lemma elem_of_optional {A : Type} (P : Prop) `{!Decision P} (x y : A) :
  y ∈ (if decide P then [x] else []) ↔ P ∧ y = x.
Proof.
  destruct (decide P).
  - rewrite list_elem_of_singleton. tauto.
  - split; [by intros ?%elem_of_nil|tauto].
Qed.

Lemma options_without_title {Ctx W : Type}
    (s : @Slack.SlackNotifier Ctx W) (msg : Message) :
  Title msg = "" →
  head (SlackRich.options_of s msg) = Some (Slack.MsgOptionText (Text msg) false)
  ∧ Forall (λ o, SlackRich.is_blocks_option o = false) (SlackRich.options_of s msg).
Proof.
  intros Ht. rewrite options_of_eq. simpl. rewrite decide_False by (by intros ?).
  split; [done|]. constructor; [done|].
  apply Forall_forall. intros o. rewrite !elem_of_app, !elem_of_optional.
  by intros [[_ ->]|[[_ ->]|[_ ->]]].
Qed.

(** X15. The options [SendWithOptions] hands to the client.  Without a
    title the first option is the plain text and there are no blocks.
    With a title the plain text option is dropped: no text option is left,
    and the last option is the pair of blocks, a header with the title and
    a section with the text.  In both cases the user name, the icon and the
    attachments are passed exactly when they are set, and there are at
    least one and at most four options. *)
Theorem X15_slack_options {Ctx W : Type} (s : @Slack.SlackNotifier Ctx W) (msg : Message) :
  let options := SlackRich.options_of s msg in
  (Title msg = "" →
     head options = Some (Slack.MsgOptionText (Text msg) false)
     ∧ Forall (λ o, SlackRich.is_blocks_option o = false) options)
  ∧ (Title msg ≠ "" →
       Forall (λ o, SlackRich.is_text_option o = false) options
       ∧ last options
         = Some (Slack.MsgOptionBlocks [Slack.HeaderBlock "plain_text" (Title msg);
                                        Slack.SectionBlock "mrkdwn" (Text msg)]))
  ∧ (Slack.MsgOptionUsername (Slack.username s) ∈ options ↔ Slack.username s ≠ "")
  ∧ (Slack.MsgOptionIconEmoji (Slack.iconEmoji s) ∈ options ↔ Slack.iconEmoji s ≠ "")
  ∧ (Slack.MsgOptionAttachments (Slack.convertAttachments (Attachments msg)) ∈ options
     ↔ Attachments msg ≠ [])
  ∧ 1 ≤ length options ≤ 4.
Proof.
  intros options. subst options. rewrite options_of_eq.
  set (U := if decide (Slack.username s ≠ "")
            then [Slack.MsgOptionUsername (Slack.username s)] else []).
  set (I := if decide (Slack.iconEmoji s ≠ "")
            then [Slack.MsgOptionIconEmoji (Slack.iconEmoji s)] else []).
  set (A := if decide (0 < length (Attachments msg))
            then [Slack.MsgOptionAttachments (Slack.convertAttachments (Attachments msg))]
            else []).
  set (B := Slack.MsgOptionBlocks [Slack.HeaderBlock "plain_text" (Title msg);
                                   Slack.SectionBlock "mrkdwn" (Text msg)]).
  assert (0 < length (Attachments msg) ↔ Attachments msg ≠ []) as Hatt.
  { destruct (Attachments msg); simpl; split; (lia || done). }
  assert (∀ o, o ∈ U ++ I ++ A →
            SlackRich.is_text_option o = false ∧ SlackRich.is_blocks_option o = false)
    as Hextras.
  { intros o. rewrite !elem_of_app. unfold U, I, A. rewrite !elem_of_optional.
    by intros [[_ ->]|[[_ ->]|[_ ->]]]. }
  assert (length (U ++ I ++ A) ≤ 3) as Hlen.
  { rewrite !length_app. unfold U, I, A.
    destruct (decide (Slack.username s ≠ "")), (decide (Slack.iconEmoji s ≠ "")),
      (decide (0 < length (Attachments msg))); simpl; lia. }
  assert (∀ o, SlackRich.is_text_option o = false → SlackRich.is_blocks_option o = false →
            (o ∈ (if decide (Title msg ≠ "") then (U ++ I ++ A) ++ [B]
                  else Slack.MsgOptionText (Text msg) false :: U ++ I ++ A)
             ↔ o ∈ U ++ I ++ A)) as Hmem.
  { intros o Hnt Hnb. destruct (decide (Title msg ≠ "")).
    - rewrite elem_of_app, list_elem_of_singleton. split; [|by left].
      intros [?| ->]; [done|]. discriminate.
    - rewrite elem_of_cons. split; [|by right]. intros [->|?]; [discriminate|done]. }
  simpl. split; [|split; [|split; [|split; [|split]]]].
  - intros Ht. rewrite decide_False by (by intros ?). split; [done|].
    constructor; [done|]. apply Forall_forall. intros o Ho. by apply Hextras.
  - intros Ht. rewrite decide_True by done. split.
    + apply Forall_app. split; [|by repeat constructor].
      apply Forall_forall. intros o Ho. by apply Hextras.
    + by rewrite last_snoc.
  - rewrite Hmem by done. rewrite !elem_of_app. unfold U, I, A.
    rewrite !elem_of_optional. intuition congruence.
  - rewrite Hmem by done. rewrite !elem_of_app. unfold U, I, A.
    rewrite !elem_of_optional. intuition congruence.
  - rewrite Hmem by done. rewrite !elem_of_app. unfold U, I, A.
    rewrite !elem_of_optional. rewrite Hatt. intuition congruence.
  - destruct (decide (Title msg ≠ "")); [rewrite length_app|]; simpl; lia.
Qed.

(** X16. [Send] of a notifier with a client posts a non-empty message to
    the default channel and nowhere else; the options begin with the plain
    text and hold no blocks.  A notifier without a default channel cannot
    [Send]: the call fails with "channel is required" and posts nothing. *)
Theorem X16_slack_send_uses_default_channel {Ctx W : Type}
    (s : @Slack.SlackNotifier Ctx W) (c : @Slack.Client Ctx W)
    (ctx : Ctx) (message : string) (w : W) :
  Slack.client s = Some c → message ≠ "" →
  (Slack.defaultChannel s = "" →
     Slack.Send s ctx message w
     = (Some (NotificationError "slack" "channel is required" None), w))
  ∧ (Slack.defaultChannel s ≠ "" →
       ∃ options,
         head options = Some (Slack.MsgOptionText message false)
         ∧ Forall (λ o, SlackRich.is_blocks_option o = false) options
         ∧ let r := Slack.PostMessageContext c ctx (Slack.defaultChannel s) options w in
           (Slack.Send s ctx message w).2 = r.2
           ∧ ((Slack.Send s ctx message w).1 = None ↔ r.1 = None)).
Proof.
  intros Hc Hmsg. unfold Slack.Send.
  set (msg := {| Text := message; Title := ""; Priority := "";
                 Channel := Slack.defaultChannel s; Attachments := [];
                 Metadata := ∅ |}).
  rewrite (Slack_SendWithOptions_eq s c) by done.
  rewrite decide_False by done.
  assert (SlackRich.channel_of s msg = Slack.defaultChannel s) as ->.
  { unfold SlackRich.channel_of. simpl. by destruct (decide _). }
  split.
  - intros Hd. by rewrite decide_True.
  - intros Hd. rewrite decide_False by done.
    exists (SlackRich.options_of s msg).
    destruct (options_without_title s msg eq_refl) as [Hhead Hblocks].
    split; [exact Hhead|]. split; [exact Hblocks|]. simpl.
    destruct (Slack.PostMessageContext c ctx _ _ w) as [[err|] w']; by simpl.
Qed.

Lemma X16_witness :
  Slack.client Providers.no_channel = Some Providers.recorder
  ∧ "hi" ≠ ""
  ∧ Slack.Send Providers.no_channel tt "hi" []
    = (Some (NotificationError "slack" "channel is required" None), [])
  ∧ Slack.Send Providers.bot tt "hi" []
    = (None, [("#general", [Slack.MsgOptionText "hi" false; Slack.MsgOptionUsername "bot"])]).
Proof.
  split; [reflexivity|]. split; [discriminate|]. split.
  - apply (X16_slack_send_uses_default_channel Providers.no_channel Providers.recorder
             tt "hi" []); [reflexivity|discriminate|reflexivity].
  - vm_compute. reflexivity.
Defined.

(** ** The conversion of attachments *)

Lemma fillFields_spec (fields : list Field) (done : list Slack.AttachmentField) :
  SlackRich.fillFields (length done) fields
    (done ++ replicate (length fields) SlackRich.zeroField)
  = done ++ map (λ field, {| Slack.AFTitle := FieldTitle field;
                             Slack.AFValue := FieldValue field;
                             Slack.AFShort := FieldShort field |}) fields.
Proof.
  revert done. induction fields as [|field fields IH]; intros done; simpl.
  - done.
  - rewrite <- (Nat.add_0_r (length done)) at 2.
    rewrite insert_app_r. simpl.
    rewrite (cons_middle _ done), app_assoc.
    replace (S (length done)) with (length (done ++ [{|
      Slack.AFTitle := FieldTitle field; Slack.AFValue := FieldValue field;
      Slack.AFShort := FieldShort field |}]))
      by (rewrite length_app; simpl; lia).
    rewrite IH. by rewrite <- app_assoc.
Qed.

Lemma convertFields_spec (fields : list Field) :
  SlackRich.convertFields fields
  = map (λ field, {| Slack.AFTitle := FieldTitle field;
                     Slack.AFValue := FieldValue field;
                     Slack.AFShort := FieldShort field |}) fields.
Proof.
  unfold SlackRich.convertFields. destruct (decide (0 < length fields)) as [Hpos|Hzero].
  - apply (fillFields_spec fields []).
  - destruct fields; [done|]. simpl in Hzero. lia.
Qed.

Lemma fillAttachments_spec (attachments : list Attachment)
    (done : list Slack.SlackAttachment) :
  SlackRich.fillAttachments (length done) attachments
    (done ++ replicate (length attachments) SlackRich.zeroAttachment)
  = done ++ Slack.convertAttachments attachments.
Proof.
  revert done. induction attachments as [|att attachments IH]; intros done; simpl.
  - done.
  - rewrite <- (Nat.add_0_r (length done)) at 2.
    rewrite insert_app_r. simpl. rewrite convertFields_spec.
    rewrite (cons_middle _ done), app_assoc.
    match goal with
    | |- SlackRich.fillAttachments _ _ ((done ++ [?x]) ++ _) = _ =>
        replace (S (length done)) with (length (done ++ [x]))
          by (rewrite length_app; simpl; lia)
    end.
    rewrite IH. by rewrite <- app_assoc.
Qed.

(** X17. The loop of [convertAttachments], which allocates the result at
    full length and writes it slot by slot, leaves no slot at its zero
    value and none out of place: the result has one Slack attachment per
    attachment, in the same order, slot [i] carrying the title, text,
    image, colour and footer of attachment [i] and one Slack field per
    field of it. *)
Theorem X17_convert_attachments_fills_every_slot (attachments : list Attachment) :
  SlackRich.convertAttachments attachments = Slack.convertAttachments attachments
  ∧ length (SlackRich.convertAttachments attachments) = length attachments
  ∧ ∀ i att, attachments !! i = Some att →
      ∃ converted,
        SlackRich.convertAttachments attachments !! i = Some converted
        ∧ Slack.SATitle converted = AttTitle att
        ∧ Slack.SAText converted = AttText att
        ∧ Slack.SAImageURL converted = AttImageURL att
        ∧ Slack.SAColor converted = AttColor att
        ∧ Slack.SAFooter converted = AttFooter att
        ∧ Slack.SAFooterIcon converted = AttFooterIcon att
        ∧ length (Slack.SAFields converted) = length (AttFields att)
        ∧ ∀ j field, AttFields att !! j = Some field →
            Slack.SAFields converted !! j
            = Some {| Slack.AFTitle := FieldTitle field;
                      Slack.AFValue := FieldValue field;
                      Slack.AFShort := FieldShort field |}.
Proof.
  assert (SlackRich.convertAttachments attachments = Slack.convertAttachments attachments)
    as Heq by apply (fillAttachments_spec attachments []).
  rewrite Heq. split; [done|]. unfold Slack.convertAttachments.
  split; [by rewrite length_map|].
  intros i att Hatt. eexists. split.
  - change (map ?f ?l) with (f <$> l). rewrite list_lookup_fmap, Hatt. reflexivity.
  - simpl. repeat (split; [done|]). split; [by rewrite length_map|].
    intros j field Hfield.
    change (map ?f ?l) with (f <$> l). by rewrite list_lookup_fmap, Hfield.
Qed.

(** ** Rich messages and files *)

(** X18. [SendRichMessage] and [SendFile] of a notifier with a client make
    exactly one call to the API, on the channel they are given or on the
    default channel when they are given none, and they make it even when
    that channel is empty: unlike [SendWithOptions] they check no channel.
    They return nil when the call does and else an error of the provider
    that wraps the error of the call; the text of [SendFile]'s error ends
    with the text of the cause. *)
Theorem X18_rich_and_file_call_the_api {Ctx W : Type}
    (UploadFileContext : @Slack.Client Ctx W → Ctx → SlackRich.FileUploadParameters
                         → W → option error * W)
    (s : @Slack.SlackNotifier Ctx W) (c : @Slack.Client Ctx W) (ctx : Ctx)
    (channel filePath title comment : string) (blocks : list Slack.Block) (w : W) :
  Slack.client s = Some c →
  let target := if decide (channel = "") then Slack.defaultChannel s else channel in
  let posted := Slack.PostMessageContext c ctx target [Slack.MsgOptionBlocks blocks] w in
  let uploaded :=
    UploadFileContext c ctx
      {| SlackRich.File := filePath; SlackRich.Channels := [target];
         SlackRich.FileTitle := title; SlackRich.InitialComment := comment |} w in
  SlackRich.SendRichMessage s ctx channel blocks w
  = (match posted.1 with
     | Some err => Some (NotificationError "slack" "failed to send rich message" (Some err))
     | None => None
     end, posted.2)
  ∧ SlackRich.SendFile UploadFileContext s ctx channel filePath title comment w
    = (match uploaded.1 with
       | Some err =>
           Some (NotificationError "slack" ("failed to upload file: " +:+ Error err)
                   (Some err))
       | None => None
       end, uploaded.2)
  ∧ (Slack.defaultChannel s = "" → channel = "" → target = "").
Proof.
  intros Hc target posted uploaded. subst posted uploaded target.
  unfold SlackRich.SendRichMessage, SlackRich.SendFile. rewrite Hc. simpl.
  split; [|split].
  - by destruct (Slack.PostMessageContext c ctx _ _ w) as [[err|] w'].
  - by destruct (UploadFileContext c ctx _ w) as [[err|] w'].
  - intros Hd Hch. by rewrite decide_True.
Qed.

Lemma X18_witness :
  Slack.client Providers.no_channel = Some Providers.recorder
  ∧ SlackRich.SendRichMessage Providers.no_channel tt "" [] [] = (None, [("", [Slack.MsgOptionBlocks []])])
  ∧ SlackRich.SendFile Providers.upload Providers.bot tt "" "report.pdf" "Report" "" []
    = (Some (NotificationError "slack" "failed to upload file: not_in_channel"
               (Some (externalError "not_in_channel"))), [("#general", [])]).
Proof.
  split; [reflexivity|].
  split.
  - exact (proj1 (X18_rich_and_file_call_the_api Providers.upload Providers.no_channel
                    Providers.recorder tt "" "report.pdf" "Report" "" [] [] eq_refl)).
  - exact (proj1 (proj2 (X18_rich_and_file_call_the_api Providers.upload Providers.bot
                           Providers.recorder tt "" "report.pdf" "Report" "" [] []
                           eq_refl))).
Defined.

(** X19. Whatever goes wrong in [Send], [SendWithOptions],
    [SendRichMessage] or [SendFile], the caller gets a [NotificationError]
    whose provider is "slack"; it carries a cause only when the client was
    called. *)
Theorem X19_slack_errors_name_the_provider {Ctx W : Type}
    (UploadFileContext : @Slack.Client Ctx W → Ctx → SlackRich.FileUploadParameters
                         → W → option error * W)
    (s : @Slack.SlackNotifier Ctx W) (ctx : Ctx) (msg : Message)
    (message channel filePath title comment : string) (blocks : list Slack.Block) (w : W) :
  let tagged (r : option error * W) :=
    ∀ e, r.1 = Some e →
      ∃ reason cause, e = NotificationError "slack" reason cause
                      ∧ (is_Some cause → is_Some (Slack.client s)) in
  tagged (Slack.SendWithOptions s ctx msg w)
  ∧ tagged (Slack.Send s ctx message w)
  ∧ tagged (SlackRich.SendRichMessage s ctx channel blocks w)
  ∧ tagged (SlackRich.SendFile UploadFileContext s ctx channel filePath title comment w).
Proof.
  intros tagged. subst tagged.
  assert (∀ m : Message, ∀ e, (Slack.SendWithOptions s ctx m w).1 = Some e →
            ∃ reason cause, e = NotificationError "slack" reason cause
                            ∧ (is_Some cause → is_Some (Slack.client s))) as Hswo.
  { intros m e. destruct (Slack.client s) as [c|] eqn:Hc.
    - rewrite (Slack_SendWithOptions_eq s c) by done.
      destruct (decide (Text m = "")).
      { intros [= <-]. eexists _, _. split; [done|]. by intros [? ?]. }
      destruct (decide (SlackRich.channel_of s m = "")).
      { intros [= <-]. eexists _, _. split; [done|]. by intros [? ?]. }
      simpl. destruct (Slack.PostMessageContext c ctx _ _ w) as [[err|] w']; simpl.
      + intros [= <-]. eexists _, _. split; [done|]. eauto.
      + done.
    - rewrite Slack_without_client by done. intros [= <-].
      eexists _, _. split; [done|]. by intros [? ?]. }
  split; [apply Hswo|]. split; [apply Hswo|].
  unfold SlackRich.SendRichMessage, SlackRich.SendFile.
  destruct (Slack.client s) as [c|]; simpl.
  - split.
    + destruct (Slack.PostMessageContext c ctx _ _ w) as [[err|] w']; simpl;
        [|done]. intros e [= <-]. eexists _, _. split; [done|]. eauto.
    + destruct (UploadFileContext c ctx _ w) as [[err|] w']; simpl;
        [|done]. intros e [= <-]. eexists _, _. split; [done|]. eauto.
  - split; intros e [= <-]; eexists _, _; (split; [done|]); by intros [? ?].
Qed.

(** ** The Telegram notifier *)

Section TelegramProperties.
Context {Ctx W Request : Type}.
Variable Marshal : gmap string any → error + string.
Variable NewRequestWithContext : Ctx → string → string → string → error + Request.
Variable Unmarshal : string → error + (bool * string).
Implicit Types (t : @Telegram.TelegramNotifier W Request) (w : W).

Lemma sendRequest_nil_iff t ctx method payload w :
  (Telegram.sendRequest Request Marshal NewRequestWithContext Unmarshal
     t ctx method payload w).1 = None
  ↔ TelegramPhoto.answered_ok Request Marshal NewRequestWithContext Unmarshal
      t ctx method payload w.
Proof.
  unfold Telegram.sendRequest, TelegramPhoto.answered_ok.
  destruct (Marshal payload) as [err|jsonData] eqn:Hm.
  { split; [done|]. by intros (? & ? & ? & ? & ? & ? & _). }
  destruct (NewRequestWithContext ctx "POST" _ jsonData) as [err|req] eqn:Hn.
  { split; [done|]. intros (? & ? & ? & ? & ? & [= <-] & Hn' & _). congruence. }
  destruct (Telegram.Do Request (Telegram.client Request t) req w) as [[err|resp] w'] eqn:Hd.
  { split; [done|]. intros (? & ? & ? & ? & ? & [= <-] & Hn' & Hd' & _).
    rewrite Hn in Hn'. injection Hn' as <-. by rewrite Hd in Hd'. }
  destruct (Telegram.Body resp) as [err|body] eqn:Hb.
  { split; [done|]. intros (? & ? & ? & ? & ? & [= <-] & Hn' & Hd' & Hb' & _).
    rewrite Hn in Hn'. injection Hn' as <-. rewrite Hd in Hd'. simpl in Hd'.
    injection Hd' as <-. congruence. }
  destruct (decide (Telegram.StatusCode resp ≠ 200%Z)) as [Hs|Hs].
  { split; [done|]. intros (? & ? & ? & ? & ? & [= <-] & Hn' & Hd' & _ & Hs' & _).
    rewrite Hn in Hn'. injection Hn' as <-. rewrite Hd in Hd'. simpl in Hd'.
    injection Hd' as <-. done. }
  destruct (Unmarshal body) as [err|[ok description]] eqn:Hu.
  { split; [done|]. intros (? & ? & ? & ? & ? & [= <-] & Hn' & Hd' & Hb' & _ & Hu').
    rewrite Hn in Hn'. injection Hn' as <-. rewrite Hd in Hd'. simpl in Hd'.
    injection Hd' as <-. rewrite Hb in Hb'. injection Hb' as <-. congruence. }
  destruct ok.
  - split; [|done]. intros _. exists jsonData, req, resp, body, description.
    rewrite Hd. simpl. repeat split; try done.
    by destruct (decide (Telegram.StatusCode resp = 200%Z)); [|exfalso; apply Hs].
  - split; [done|]. intros (? & ? & ? & ? & ? & [= <-] & Hn' & Hd' & Hb' & _ & Hu').
    rewrite Hn in Hn'. injection Hn' as <-. rewrite Hd in Hd'. simpl in Hd'.
    injection Hd' as <-. rewrite Hb in Hb'. injection Hb' as <-. congruence.
Qed.

Lemma sendRequest_tagged t ctx method payload w e :
  (Telegram.sendRequest Request Marshal NewRequestWithContext Unmarshal
     t ctx method payload w).1 = Some e →
  ∃ reason cause, e = NotificationError "telegram" reason cause.
Proof.
  unfold Telegram.sendRequest.
  destruct (Marshal payload) as [err|jsonData]; [intros [= <-]; eauto|].
  destruct (NewRequestWithContext ctx "POST" _ jsonData) as [err|req];
    [intros [= <-]; eauto|].
  destruct (Telegram.Do Request (Telegram.client Request t) req w) as [[err|resp] w'];
    [intros [= <-]; eauto|].
  destruct (Telegram.Body resp) as [err|body]; [intros [= <-]; eauto|].
  destruct (decide (Telegram.StatusCode resp ≠ 200%Z)); [intros [= <-]; eauto|].
  destruct (Unmarshal body) as [err|[[] description]]; [intros [= <-]; eauto|done|].
  intros [= <-]; eauto.
Qed.

Lemma sendRequest_world t ctx method payload w :
  (Telegram.sendRequest Request Marshal NewRequestWithContext Unmarshal
     t ctx method payload w).2 = w
  ∨ ∃ jsonData req,
      Marshal payload = inr jsonData
      ∧ NewRequestWithContext ctx "POST"
          ("https://api.telegram.org/bot" +:+ Telegram.botToken Request t +:+ "/" +:+ method)
          jsonData = inr req
      ∧ (Telegram.sendRequest Request Marshal NewRequestWithContext Unmarshal
           t ctx method payload w).2
        = (Telegram.Do Request (Telegram.client Request t) req w).2.
Proof.
  unfold Telegram.sendRequest.
  destruct (Marshal payload) as [err|jsonData]; [by left|].
  destruct (NewRequestWithContext ctx "POST" _ jsonData) as [err|req] eqn:Hn;
    [by left|].
  right. exists jsonData, req. split; [done|]. split; [exact Hn|].
  destruct (Telegram.Do Request (Telegram.client Request t) req w) as [[err|resp] w'];
    [done|]. simpl.
  destruct (Telegram.Body resp) as [err|body]; [done|].
  destruct (decide (Telegram.StatusCode resp ≠ 200%Z)); [done|].
  by destruct (Unmarshal body) as [err|[[] description]].
Qed.

Lemma Telegram_SendWithOptions_eq t ctx msg w :
  Telegram.SendWithOptions Request Marshal NewRequestWithContext Unmarshal t ctx msg w =
    if decide (Text msg = "")
    then (Some (NotificationError "telegram" "message text is required" None), w)
    else Telegram.sendRequest Request Marshal NewRequestWithContext Unmarshal
           t ctx "sendMessage"
           (TelegramPhoto.payload_of Request t msg) w.
Proof.
  unfold Telegram.SendWithOptions, TelegramPhoto.payload_of.
  by destruct (decide (Text msg = "")).
Qed.

End TelegramProperties.

(** X20. [NewTelegramNotifier] refuses a configuration without a bot
    token, and then one without a chat ID; the token is checked first.
    The notifier it builds otherwise keeps both, so it always has a chat to
    send to; its parse mode is never empty, "Markdown" standing in for a
    missing one, and its client is the configured one or else the default
    client. *)
Theorem X20_new_telegram_notifier {W Request : Type}
    (defaultClient : @Telegram.Client W Request)
    (config : @Telegram.TelegramConfig W Request) :
  match Telegram.NewTelegramNotifier Request defaultClient config with
  | inl err =>
      (Telegram.BotToken Request config = ""
       ∧ err = NotificationError "telegram" "bot token is required" None)
      ∨ (Telegram.BotToken Request config ≠ "" ∧ Telegram.ChatID Request config = ""
         ∧ err = NotificationError "telegram" "chat ID is required" None)
  | inr t =>
      Telegram.BotToken Request config ≠ "" ∧ Telegram.ChatID Request config ≠ ""
      ∧ Telegram.botToken Request t = Telegram.BotToken Request config
      ∧ Telegram.chatID Request t = Telegram.ChatID Request config
      ∧ Telegram.parseMode Request t ≠ ""
      ∧ (Telegram.ParseMode Request config ≠ "" →
           Telegram.parseMode Request t = Telegram.ParseMode Request config)
      ∧ (Telegram.ParseMode Request config = "" → Telegram.parseMode Request t = "Markdown")
      ∧ Telegram.client Request t
        = default defaultClient (Telegram.HTTPClient Request config)
  end.
Proof.
  unfold Telegram.NewTelegramNotifier.
  destruct (decide (Telegram.BotToken Request config = "")) as [Ht|Ht]; [by left|].
  destruct (decide (Telegram.ChatID Request config = "")) as [Hc|Hc]; [by right|].
  simpl. repeat (split; [done|]).
  destruct (decide (Telegram.ParseMode Request config = "")) as [Hp|Hp].
  - split; [done|]. split; [done|]. split; [done|].
    by destruct (Telegram.HTTPClient Request config).
  - split; [done|]. split; [done|]. split; [done|].
    by destruct (Telegram.HTTPClient Request config).
Qed.

(** X21. [sendRequest] returns nil exactly when everything went well: the
    payload marshalled, the request was built, the transport answered, the
    body could be read, the status was 200 and the body parsed to
    [ok: true].  The transport is used at most once, and not at all when
    marshalling or building the request fails: the world is then
    untouched. *)
Theorem X21_send_request_succeeds_iff {Ctx W Request : Type}
    (Marshal : gmap string any → error + string)
    (NewRequestWithContext : Ctx → string → string → string → error + Request)
    (Unmarshal : string → error + (bool * string))
    (t : @Telegram.TelegramNotifier W Request) (ctx : Ctx) (method : string)
    (payload : gmap string any) (w : W) :
  let r := Telegram.sendRequest Request Marshal NewRequestWithContext Unmarshal
             t ctx method payload w in
  (r.1 = None
   ↔ TelegramPhoto.answered_ok Request Marshal NewRequestWithContext Unmarshal
       t ctx method payload w)
  ∧ (r.2 = w
     ∨ ∃ jsonData req,
         Marshal payload = inr jsonData
         ∧ NewRequestWithContext ctx "POST"
             ("https://api.telegram.org/bot" +:+ Telegram.botToken Request t
                +:+ "/" +:+ method) jsonData = inr req
         ∧ r.2 = (Telegram.Do Request (Telegram.client Request t) req w).2).
Proof.
  simpl. split; [apply sendRequest_nil_iff|apply sendRequest_world].
Qed.

(** X22. Whatever goes wrong in [Send], [SendWithOptions], [SendPhoto] or
    [sendRequest], the caller gets a [NotificationError] whose provider is
    "telegram". *)
Theorem X22_telegram_errors_name_the_provider {Ctx W Request : Type}
    (Marshal : gmap string any → error + string)
    (NewRequestWithContext : Ctx → string → string → string → error + Request)
    (Unmarshal : string → error + (bool * string))
    (t : @Telegram.TelegramNotifier W Request) (ctx : Ctx) (msg : Message)
    (message chatID photoURL caption method : string) (payload : gmap string any) (w : W) :
  let tagged (r : option error * W) :=
    ∀ e, r.1 = Some e → ∃ reason cause, e = NotificationError "telegram" reason cause in
  tagged (Telegram.SendWithOptions Request Marshal NewRequestWithContext Unmarshal
            t ctx msg w)
  ∧ tagged (Telegram.Send Request Marshal NewRequestWithContext Unmarshal t ctx message w)
  ∧ tagged (TelegramPhoto.SendPhoto Request Marshal NewRequestWithContext Unmarshal
              t ctx chatID photoURL caption w)
  ∧ tagged (Telegram.sendRequest Request Marshal NewRequestWithContext Unmarshal
              t ctx method payload w).
Proof.
  intros tagged. subst tagged.
  assert (∀ m : Message, ∀ e,
            (Telegram.SendWithOptions Request Marshal NewRequestWithContext Unmarshal
               t ctx m w).1 = Some e →
            ∃ reason cause, e = NotificationError "telegram" reason cause) as Hswo.
  { intros m e. rewrite Telegram_SendWithOptions_eq.
    destruct (decide (Text m = "")); [intros [= <-]; eauto|].
    apply sendRequest_tagged. }
  split; [apply Hswo|]. split; [apply Hswo|].
  split; intros e; apply sendRequest_tagged.
Qed.

(** X23. The request a non-empty message makes: [SendWithOptions] calls
    [sendRequest] with method "sendMessage" and an object whose [chat_id]
    is the channel of the message, or the chat of the notifier when the
    message names none, whose [parse_mode] is the notifier's, and whose
    [text] is the body, preceded by the title between asterisks and an
    empty line when there is a title.  [disable_notification] is set, to
    true, exactly for priority "low"; the object has no other key. *)
Theorem X23_telegram_message_payload {Ctx W Request : Type}
    (Marshal : gmap string any → error + string)
    (NewRequestWithContext : Ctx → string → string → string → error + Request)
    (Unmarshal : string → error + (bool * string))
    (t : @Telegram.TelegramNotifier W Request) (ctx : Ctx) (msg : Message) (w : W) :
  Text msg ≠ "" →
  let payload := TelegramPhoto.payload_of Request t msg in
  Telegram.SendWithOptions Request Marshal NewRequestWithContext Unmarshal t ctx msg w
  = Telegram.sendRequest Request Marshal NewRequestWithContext Unmarshal
      t ctx "sendMessage" payload w
  ∧ (Channel msg ≠ "" → payload !! "chat_id" = Some (anyString (Channel msg)))
  ∧ (Channel msg = "" →
       payload !! "chat_id" = Some (anyString (Telegram.chatID Request t)))
  ∧ payload !! "parse_mode" = Some (anyString (Telegram.parseMode Request t))
  ∧ (Title msg = "" → payload !! "text" = Some (anyString (Text msg)))
  ∧ (Title msg ≠ "" →
       payload !! "text"
       = Some (anyString ("*" +:+ Title msg +:+ "*" +:+ Telegram.newline
                            +:+ Telegram.newline +:+ Text msg)))
  ∧ (Priority msg = "low" → payload !! "disable_notification" = Some (anyBool true))
  ∧ (Priority msg ≠ "low" → payload !! "disable_notification" = None)
  ∧ ∀ key, is_Some (payload !! key) →
      key ∈ ["chat_id"; "text"; "parse_mode"; "disable_notification"].
Proof.
  intros Htext payload. subst payload.
  rewrite Telegram_SendWithOptions_eq, decide_False by done.
  split; [done|]. unfold TelegramPhoto.payload_of, PriorityLow.
  assert (∀ (base : gmap string any) key, key ≠ "disable_notification" →
            (if decide (Priority msg = "low")
             then <["disable_notification" := anyBool true]> base else base) !! key
            = base !! key) as Hother.
  { intros base key Hkey. destruct (decide (Priority msg = "low")); [|done].
    by rewrite lookup_insert_ne. }
  split; [|split; [|split; [|split; [|split; [|split; [|split]]]]]].
  - intros Hc. rewrite Hother by done.
    rewrite !lookup_insert_ne, lookup_insert_eq by done.
    by destruct (decide (Channel msg = "")).
  - intros Hc. rewrite Hother by done.
    rewrite !lookup_insert_ne, lookup_insert_eq by done.
    by destruct (decide (Channel msg = "")).
  - rewrite Hother by done. by rewrite lookup_insert_eq.
  - intros Ht. rewrite Hother by done.
    rewrite lookup_insert_ne, lookup_insert_eq by done.
    by destruct (decide (Title msg ≠ "")).
  - intros Ht. rewrite Hother by done.
    rewrite lookup_insert_ne, lookup_insert_eq by done.
    by destruct (decide (Title msg ≠ "")).
  - intros Hp. destruct (decide (Priority msg = "low")); [|done].
    by rewrite lookup_insert_eq.
  - intros Hp. destruct (decide (Priority msg = "low")); [done|].
    by rewrite !lookup_insert_ne, lookup_empty by done.
  - intros key [v Hv].
    destruct (decide (key = "disable_notification")) as [->|Hk]; [set_solver|].
    rewrite Hother in Hv by done.
    apply lookup_insert_Some in Hv as [[<- _]|[_ Hv]]; [set_solver|].
    apply lookup_insert_Some in Hv as [[<- _]|[_ Hv]]; [set_solver|].
    apply lookup_insert_Some in Hv as [[<- _]|[_ Hv]]; [set_solver|].
    by rewrite lookup_empty in Hv.
Qed.

Lemma X23_witness :
  Text Providers.alert ≠ ""
  ∧ TelegramPhoto.payload_of string Providers.telegram Providers.alert
      !! "disable_notification" = Some (anyBool true)
  ∧ TelegramPhoto.payload_of string Providers.telegram Providers.alert !! "chat_id"
    = Some (anyString "42")
  ∧ Telegram.SendWithOptions string Providers.Marshal Providers.NewRequestWithContext
      Providers.Unmarshal Providers.telegram tt Providers.alert []
    = (None, ["https://api.telegram.org/bottoken/sendMessage"]).
Proof.
  split; [discriminate|].
  pose proof (X23_telegram_message_payload Providers.Marshal
                Providers.NewRequestWithContext Providers.Unmarshal Providers.telegram tt
                Providers.alert []) as H.
  destruct H as (_ & _ & Hchat & _ & _ & _ & Hlow & _); [discriminate|].
  split; [exact (Hlow eq_refl)|]. split; [exact (Hchat eq_refl)|].
  vm_compute. reflexivity.
Defined.

(** X24. A notifier that [NewTelegramNotifier] has built always has a
    destination for [Send]: a non-empty message becomes one "sendMessage"
    request whose [chat_id] is the configured chat ID, which is not empty,
    whose [text] is the message as it is, whose [parse_mode] is not empty,
    and which does not silence the notification. *)
Theorem X24_constructed_telegram_send {Ctx W Request : Type}
    (Marshal : gmap string any → error + string)
    (NewRequestWithContext : Ctx → string → string → string → error + Request)
    (Unmarshal : string → error + (bool * string))
    (defaultClient : @Telegram.Client W Request)
    (config : @Telegram.TelegramConfig W Request)
    (t : @Telegram.TelegramNotifier W Request) (ctx : Ctx) (message : string) (w : W) :
  Telegram.NewTelegramNotifier Request defaultClient config = inr t →
  message ≠ "" →
  Telegram.Send Request Marshal NewRequestWithContext Unmarshal t ctx message w
  = Telegram.sendRequest Request Marshal NewRequestWithContext Unmarshal t ctx
      "sendMessage"
      (<["parse_mode" := anyString (Telegram.parseMode Request t)]>
         (<["text" := anyString message]>
            (<["chat_id" := anyString (Telegram.ChatID Request config)]> ∅))) w
  ∧ Telegram.ChatID Request config ≠ ""
  ∧ Telegram.parseMode Request t ≠ "".
Proof.
  intros Hnew Hmsg. unfold Telegram.NewTelegramNotifier in Hnew.
  destruct (decide (Telegram.BotToken Request config = "")); [done|].
  destruct (decide (Telegram.ChatID Request config = "")) as [|Hchat]; [done|].
  injection Hnew as <-. simpl. split; [|split; [done|]].
  - unfold Telegram.Send. rewrite Telegram_SendWithOptions_eq. simpl.
    rewrite decide_False by done. unfold TelegramPhoto.payload_of. simpl.
    rewrite (decide_False (P := Telegram.ChatID Request config = "")) by done.
    done.
  - by destruct (decide (Telegram.ParseMode Request config = "")).
Qed.

Lemma X24_witness :
  Telegram.NewTelegramNotifier string Providers.transport Providers.telegram_config
  = inr Providers.telegram
  ∧ "hi" ≠ ""
  ∧ Telegram.Send string Providers.Marshal Providers.NewRequestWithContext
      Providers.Unmarshal Providers.telegram tt "hi" []
    = Telegram.sendRequest string Providers.Marshal Providers.NewRequestWithContext
        Providers.Unmarshal Providers.telegram tt "sendMessage"
        (<["parse_mode" := anyString "Markdown"]>
           (<["text" := anyString "hi"]> (<["chat_id" := anyString "42"]> ∅))) [].
Proof.
  split; [reflexivity|]. split; [discriminate|].
  exact (proj1 (X24_constructed_telegram_send Providers.Marshal
                  Providers.NewRequestWithContext Providers.Unmarshal Providers.transport
                  Providers.telegram_config Providers.telegram tt "hi" []
                  eq_refl ltac:(discriminate))).
Defined.

(** X25. [SendPhoto] checks nothing itself, not even an empty photo URL:
    it succeeds exactly when the "sendPhoto" request is answered with
    [ok: true], and whenever the payload marshals and the request can be
    built the transport is called.  The request names the chat it was
    given, or the chat of the notifier when it was given none, the photo
    and the caption, and no parse mode. *)
Theorem X25_send_photo {Ctx W Request : Type}
    (Marshal : gmap string any → error + string)
    (NewRequestWithContext : Ctx → string → string → string → error + Request)
    (Unmarshal : string → error + (bool * string))
    (t : @Telegram.TelegramNotifier W Request) (ctx : Ctx)
    (chatID photoURL caption : string) (w : W) :
  let r := TelegramPhoto.SendPhoto Request Marshal NewRequestWithContext Unmarshal
             t ctx chatID photoURL caption w in
  ∃ payload : gmap string any,
    (r.1 = None
     ↔ TelegramPhoto.answered_ok Request Marshal NewRequestWithContext Unmarshal
         t ctx "sendPhoto" payload w)
    ∧ (∀ jsonData req,
         Marshal payload = inr jsonData →
         NewRequestWithContext ctx "POST"
           ("https://api.telegram.org/bot" +:+ Telegram.botToken Request t
              +:+ "/" +:+ "sendPhoto") jsonData = inr req →
         r.2 = (Telegram.Do Request (Telegram.client Request t) req w).2)
    ∧ payload !! "chat_id"
      = Some (anyString (if decide (chatID = "") then Telegram.chatID Request t
                         else chatID))
    ∧ payload !! "photo" = Some (anyString photoURL)
    ∧ payload !! "caption" = Some (anyString caption)
    ∧ payload !! "parse_mode" = None.
Proof.
  simpl. unfold TelegramPhoto.SendPhoto.
  set (payload := <["caption" := anyString caption]>
                    (<["photo" := anyString photoURL]>
                       (<["chat_id" := anyString
                            (if decide (chatID = "") then Telegram.chatID Request t
                             else chatID)]> (∅ : gmap string any)))).
  exists payload. split; [apply sendRequest_nil_iff|]. split.
  - intros jsonData req Hm Hn. unfold Telegram.sendRequest. rewrite Hm, Hn.
    destruct (Telegram.Do Request (Telegram.client Request t) req w)
      as [[err|resp] w']; [done|]. simpl.
    destruct (Telegram.Body resp); [done|].
    destruct (decide (Telegram.StatusCode resp ≠ 200%Z)); [done|].
    by destruct (Unmarshal _) as [|[[] ?]].
  - unfold payload.
    by rewrite !lookup_insert_ne, ?lookup_insert_eq, ?lookup_empty by done.
Qed.

(** ** Providers behind the manager *)

Lemma outcomes_of_all {Ctx W : Type} (p : Payload Ctx) (I : W → W → Prop)
    (ok : option error → Prop)
    (l : list (string * Notifier.t Ctx W)) (w : W) :
  (∀ w0, I w0 w0) → (∀ w0 w1 w2, I w0 w1 → I w1 w2 → I w0 w2) →
  Forall (λ e, ∀ w0, ok (dispatch e.2 p w0).1 ∧ I w0 (dispatch e.2 p w0).2) l →
  Forall ok (outcomes_of p l w).1 ∧ I w (outcomes_of p l w).2.
Proof.
  intros Hrefl Htrans. revert w. induction l as [|[name nt] l IH]; intros w Hall; simpl.
  - split; [constructor|apply Hrefl].
  - inversion Hall as [|? ? Hhead Htail]; subst. simpl in Hhead.
    destruct (Hhead w) as [Hok Hstep].
    destruct (dispatch nt p w) as [err w']. simpl in *.
    destruct (IH w' Htail) as [Hoks Hsteps].
    destruct (outcomes_of p l w') as [outs w'']. simpl in *.
    split; [by constructor|]. by eapply Htrans.
Qed.

Lemma line_feeds_app (a b : string) :
  line_feeds (a +:+ b) = line_feeds a + line_feeds b.
Proof. induction a as [|c a IH]; simpl; [done|]. rewrite IH. lia. Qed.

Lemma line_feeds_announced (name message : string) :
  line_feeds (announced name message) = line_feeds name + line_feeds message + 1.
Proof. unfold announced. rewrite !line_feeds_app. simpl. lia. Qed.

(** X26. A broadcast to a registry that holds only console notifiers of
    the custom example never reports an error.  The simple-text broadcast
    writes to standard output once per registered notifier, in the order
    of the iteration: the notifier's name in brackets, the message as it
    is, and a line feed.  Each of these texts has one line feed more than
    the name and the message hold, so it is one line exactly when they
    hold none. *)
Theorem X26_console_broadcast {Ctx : Type}
    (range_order : nat → gmap string (Notifier.t Ctx (list string))
                   → list (string * Notifier.t Ctx (list string)))
    (range_order_enumerates : ∀ k ns, range_order k ns ≡ₚ map_to_list ns)
    (s : @Machine Ctx (list string)) (ctx : Ctx) (message : string) (msg : Message) :
  (∀ name nt, notifiers s !! name = Some nt → ∃ c, nt = Custom.as_Notifier c) →
  let l := range_order (iterations s) (notifiers s) in
  let written := (λ e, announced (Notifier.Name e.2) message) <$> l in
  (Broadcast range_order ctx message s).1 = []
  ∧ (BroadcastWithOptions range_order ctx msg s).1 = []
  ∧ world (Broadcast range_order ctx message s).2 = world s ++ written
  ∧ length written = size (notifiers s)
  ∧ line_feeds <$> written
    = (λ e, line_feeds (Notifier.Name e.2) + line_feeds message + 1) <$> l.
Proof.
  intros Hcustom l written. unfold Broadcast, BroadcastWithOptions.
  rewrite !broadcast_eq. cbn [fst snd world]. fold l.
  assert (Forall (λ e, ∃ c, e.2 = Custom.as_Notifier c) l) as Hall.
  { apply Forall_forall. intros [k v] Hin. unfold l in Hin.
    rewrite range_order_enumerates in Hin. apply elem_of_map_to_list in Hin.
    by eapply Hcustom. }
  assert (length l = size (notifiers s)) as Hlen.
  { unfold l. by rewrite range_order_enumerates, length_map_to_list. }
  assert (∀ p, Forall (λ o, o = None) (outcomes_of p l (world s)).1) as Hnone.
  { intros p.
    apply (outcomes_of_all p (λ _ _, True) (λ o, o = None) l (world s)); [done..|].
    eapply Forall_impl; [exact Hall|]. intros [k v] [c ->] w0. simpl.
    by destruct p. }
  split; [|split; [|split; [|split]]].
  - apply failures_nil_iff; [by rewrite length_outcomes_of|apply Hnone].
  - apply failures_nil_iff; [by rewrite length_outcomes_of|apply Hnone].
  - subst written. clear Hlen Hnone. generalize (world s). clearbody l.
    induction Hall as [|[k v] l' Hc _ IH]; intros w; [simpl; by rewrite app_nil_r|].
    destruct Hc as [c Hc]. simpl in Hc. subst v. rewrite fmap_cons.
    cbn [outcomes_of dispatch Custom.as_Notifier Notifier.Send Notifier.Name snd
         Custom.Send Custom.Name].
    specialize (IH (w ++ ["[" +:+ Custom.name c +:+ "] Sending message: "
                            +:+ message +:+ Custom.LF])).
    destruct (outcomes_of (SimpleText ctx message) l' _) as [outs w''].
    cbn [snd] in *. rewrite IH. rewrite <- app_assoc. done.
  - subst written. by rewrite length_fmap.
  - subst written. rewrite <- list_fmap_compose. apply list_fmap_ext.
    intros i e _. simpl. apply line_feeds_announced.
Qed.

Lemma X26_witness :
  (∀ k ns, Providers.console_order k ns ≡ₚ map_to_list ns)
  ∧ (∀ name nt, notifiers Providers.consoles !! name = Some nt →
       ∃ c, nt = Custom.as_Notifier c)
  ∧ (Broadcast Providers.console_order tt "hi" Providers.consoles).1 = []
  ∧ world (Broadcast Providers.console_order tt "hi" Providers.consoles).2
    = ["[console] Sending message: hi" +:+ Custom.LF;
       "[email] Sending message: hi" +:+ Custom.LF]
  ∧ line_feeds <$>
      world (Broadcast Providers.console_order tt Providers.two_lines Providers.consoles).2
    = [2; 2].
Proof.
  split; [intros; reflexivity|].
  assert (∀ name nt, notifiers Providers.consoles !! name = Some nt →
            ∃ c : Custom.CustomNotifier, nt = @Custom.as_Notifier unit c) as Hcustom.
  { intros name nt Hnt.
    change (notifiers Providers.consoles)
      with (<["email" := Providers.email]>
              (<["console" := Providers.console]>
                 (∅ : gmap string (Notifier.t unit (list string))))) in Hnt.
    apply lookup_insert_Some in Hnt as [[_ <-]|[_ Hnt]]; [by eexists|].
    apply lookup_insert_Some in Hnt as [[_ <-]|[_ Hnt]]; [by eexists|].
    by rewrite lookup_empty in Hnt. }
  split; [exact Hcustom|]. split; [|split].
  - exact (proj1 (X26_console_broadcast Providers.console_order (λ _ _, reflexivity _)
                    Providers.consoles tt "hi" Scenario.hello Hcustom)).
  - vm_compute. reflexivity.
  - vm_compute. reflexivity.
Defined.

(** X27. A targeted send to a registered mock reaches that mock and no
    other: the mock at its address is marked as called and remembers the
    text, every other address of the heap is as before, and the send fails
    with the mock error exactly when the mock is set to fail. *)
Theorem X27_send_reaches_one_mock
    (s : @Machine unit (gmap nat Mock.MockNotifier)) (name nm text : string)
    (l : nat) (m : Mock.MockNotifier) :
  notifiers s !! name = Some (Mock.as_Notifier l nm) →
  world s !! l = Some m →
  let r := Send tt name text s in
  r.1 = (if Mock.shouldFail m
         then Some (NotificationError (Mock.name m) "mock error" None) else None)
  ∧ world r.2 !! l
    = Some {| Mock.name := Mock.name m; Mock.sendCalled := true;
              Mock.lastMessage := text; Mock.shouldFail := Mock.shouldFail m |}
  ∧ (∀ l', l' ≠ l → world r.2 !! l' = world s !! l')
  ∧ ((SendWithOptions tt name
        {| Text := text; Title := ""; Priority := ""; Channel := "";
           Attachments := []; Metadata := ∅ |} s).1 = r.1).
Proof.
  intros Hnt Hm r. subst r. unfold Send, SendWithOptions.
  rewrite !(send_to_present name (Mock.as_Notifier l nm)) by done.
  rewrite !invoke_eq, Get_eq. cbn [fst snd world dispatch].
  simpl. unfold Mock.send. rewrite Hm. simpl.
  split; [done|]. split; [apply lookup_insert_eq|]. split; [|done].
  intros l' Hne. by rewrite lookup_insert_ne.
Qed.

Lemma X27_witness :
  notifiers Scenario.both !! "b" = Some (Mock.as_Notifier 1 "b")
  ∧ world Scenario.both !! 1 = Some (Scenario.failing "b")
  ∧ (Send tt "b" "hi" Scenario.both).1 = Some (NotificationError "b" "mock error" None)
  ∧ Mock.sendCalled <$> (world (Send tt "b" "hi" Scenario.both).2 !! 0) = Some false.
Proof.
  split; [reflexivity|]. split; [reflexivity|].
  pose proof (X27_send_reaches_one_mock Scenario.both "b" "b" "hi" 1 (Scenario.failing "b")
                eq_refl eq_refl) as (Herr & _ & Hother & _).
  split; [exact Herr|]. rewrite (Hother 0) by discriminate. reflexivity.
Defined.

Lemma failures_of_all_failed {Ctx W : Type} (ok : error → Prop)
    (l : list (string * Notifier.t Ctx W)) (outs : list (option error)) :
  length l = length outs →
  Forall (λ o, ∃ e, o = Some e ∧ ok e) outs →
  length (failures l outs) = length l
  ∧ Forall (λ e, ∃ inner, Unwrap e = Some inner ∧ ok inner) (failures l outs).
Proof.
  revert outs. induction l as [|[name nt] l IH]; intros [|o outs] Hlen Hall;
    simpl in *; try done.
  injection Hlen as Hlen. inversion Hall as [|? ? (e & -> & He) Htail]; subst.
  destruct (IH outs Hlen Htail) as [IHlen IHall]. unfold failures in *. simpl.
  split; [by f_equal|]. constructor; [|done]. by exists e.
Qed.

(** X28. Broadcasting the empty text to a registry of Slack and Telegram
    notifiers sends nothing at all: every notifier refuses locally, so the
    world is untouched, and the broadcast returns one error per registered
    notifier, each wrapping a [NotificationError] without a cause. *)
Theorem X28_empty_text_broadcast_sends_nothing {Ctx W Request : Type}
    (Marshal : gmap string any → error + string)
    (NewRequestWithContext : Ctx → string → string → string → error + Request)
    (Unmarshal : string → error + (bool * string))
    (range_order : nat → gmap string (Notifier.t Ctx W) → list (string * Notifier.t Ctx W))
    (range_order_enumerates : ∀ k ns, range_order k ns ≡ₚ map_to_list ns)
    (s : @Machine Ctx W) (ctx : Ctx) :
  (∀ name nt, notifiers s !! name = Some nt →
     (∃ sl, nt = Slack.as_Notifier sl)
     ∨ (∃ tg, nt = Telegram.as_Notifier Request Marshal NewRequestWithContext
                     Unmarshal tg)) →
  let r := Broadcast range_order ctx "" s in
  world r.2 = world s
  ∧ length r.1 = size (notifiers s)
  ∧ Forall (λ e, ∃ provider reason,
              Unwrap e = Some (NotificationError provider reason None)) r.1.
Proof.
  intros Hkind r. subst r. unfold Broadcast. rewrite broadcast_eq.
  cbn [fst snd world].
  set (l := range_order (iterations s) (notifiers s)).
  assert (length l = size (notifiers s)) as Hlen.
  { unfold l. by rewrite range_order_enumerates, length_map_to_list. }
  pose proof (outcomes_of_all (SimpleText ctx "") eq
                (λ o, ∃ e, o = Some e
                           ∧ ∃ provider reason, e = NotificationError provider reason None)
                l (world s)) as Hall.
  destruct Hall as [Houts Hworld]; [done|by intros ? ? ? -> ->| |].
  { apply Forall_forall. intros [k v] Hin w0. unfold l in Hin.
    rewrite range_order_enumerates in Hin. apply elem_of_map_to_list in Hin.
    destruct (Hkind k v Hin) as [[sl ->]|[tg ->]]; simpl.
    - unfold Slack.Send, Slack.SendWithOptions. simpl.
      destruct (Slack.client sl); simpl;
        (split; [|done]); eexists; (split; [done|]); by eexists _, _.
    - unfold Telegram.Send, Telegram.SendWithOptions. simpl.
      split; [|done]. eexists. split; [done|]. by eexists _, _. }
  split; [done|].
  destruct (failures_of_all_failed
              (λ e, ∃ provider reason, e = NotificationError provider reason None)
              l (outcomes_of (SimpleText ctx "") l (world s)).1) as [Hn Hshape];
    [by rewrite length_outcomes_of|exact Houts|].
  split; [by rewrite Hn|].
  eapply Forall_impl; [exact Hshape|].
  intros e (inner & Hun & provider & reason & ->). by exists provider, reason.
Qed.

Lemma X28_witness :
  (∀ k ns, Providers.chat_order k ns ≡ₚ map_to_list ns)
  ∧ (∀ name nt, notifiers Providers.chats !! name = Some nt →
       (∃ sl, nt = Slack.as_Notifier sl)
       ∨ (∃ tg, nt = Telegram.as_Notifier string Providers.Marshal
                       Providers.NewRequestWithContext Providers.Unmarshal tg))
  ∧ world (Broadcast Providers.chat_order tt "" Providers.chats).2 = []
  ∧ length (Broadcast Providers.chat_order tt "" Providers.chats).1 = 2
  ∧ length (world (Broadcast Providers.chat_order tt "hi" Providers.chats).2) = 2.
Proof.
  split; [intros; reflexivity|].
  assert (∀ name nt, notifiers Providers.chats !! name = Some nt →
            (∃ sl, nt = Slack.as_Notifier sl)
            ∨ (∃ tg, nt = Telegram.as_Notifier string Providers.Marshal
                            Providers.NewRequestWithContext Providers.Unmarshal tg))
    as Hkind.
  { intros name nt Hnt.
    change (notifiers Providers.chats)
      with (<["telegram" := Providers.telegram_provider]>
              (<["slack" := Providers.slack_provider]>
                 (∅ : gmap string (Notifier.t unit Providers.Posts)))) in Hnt.
    apply lookup_insert_Some in Hnt as [[_ <-]|[_ Hnt]]; [right; by eexists|].
    apply lookup_insert_Some in Hnt as [[_ <-]|[_ Hnt]]; [left; by eexists|].
    by rewrite lookup_empty in Hnt. }
  split; [exact Hkind|].
  pose proof (X28_empty_text_broadcast_sends_nothing Providers.Marshal
                Providers.NewRequestWithContext Providers.Unmarshal Providers.chat_order
                (λ _ _, reflexivity _) Providers.chats tt Hkind) as (Hworld & Hlen & _).
  split; [exact Hworld|]. split; [exact Hlen|]. vm_compute. reflexivity.
Defined.
